(** * The dynamic form validator of [js/validator.js]

    A shallow embedding of the class [FormValidator] (rule registry, field
    configuration store, message formatter, validation engine) together
    with the properties its specification states about it.

    Conventions of the embedding.
    - A JavaScript string is a [string]: a sequence of code units below 256.
    - A JavaScript value is a scalar: [undefined], [null], a boolean, a
      number or a string.  Number values stored in form data and in rule
      parameters are [NaN], the two infinities, or an integer, whose text
      is its decimal notation.
    - A plain object ([formData], [params], [results]) is the list of its
      own entries in the order [Object.entries] enumerates them; inherited
      properties are not modelled.
    - A [Map] is the list of its entries in insertion order.
    - Methods are computations in a state-and-exception monad over the
      machine: the validator object [this], the lines written with
      [console.warn], the world the registered predicates may read and
      write, and a log of the predicate invocations.  A registered
      predicate is a function of its three arguments and of that world; it
      does not call back into the validator.
    - Services of the JavaScript runtime that the source only calls
      (regular expressions, numeric parsing, [Date], [URL]) are the fields
      of a [Runtime] record. *)

From Stdlib Require Import ZArith List String Ascii Bool Lia DecimalString.
Import ListNotations.
Open Scope string_scope.
Open Scope bool_scope.

Set Implicit Arguments.

(** ** JavaScript values *)

Inductive JSNumber : Type :=
| NaN
| Infinity (negative : bool)
| Finite (z : Z).

Inductive JSValue : Type :=
| VUndefined
| VNull
| VBool (b : bool)
| VNumber (n : JSNumber)
| VString (s : string).

Inductive JSError : Type :=
| TypeError
| SyntaxError
| Thrown (v : JSValue).

(** The outcome of evaluating an expression or a call. *)
Inductive completion (A : Type) : Type :=
| Normal (a : A)
| Throw (e : JSError).

Arguments Normal {A} a.
Arguments Throw {A} e.

(** [!!value] *)
Definition ToBoolean (v : JSValue) : bool :=
  match v with
  | VUndefined | VNull => false
  | VBool b => b
  | VNumber NaN => false
  | VNumber (Infinity _) => true
  | VNumber (Finite z) => negb (Z.eqb z 0)
  | VString s => negb (String.eqb s EmptyString)
  end.

Definition Number_toString (n : JSNumber) : string :=
  match n with
  | NaN => "NaN"
  | Infinity false => "Infinity"
  | Infinity true => "-Infinity"
  | Finite z => NilZero.string_of_int (Z.to_int z)
  end.

(** [String(value)], the conversion applied to a replacement value and to
    the argument of [RegExp.prototype.test]. *)
Definition ToString (v : JSValue) : string :=
  match v with
  | VUndefined => "undefined"
  | VNull => "null"
  | VBool true => "true"
  | VBool false => "false"
  | VNumber n => Number_toString n
  | VString s => s
  end.

(** [value.toString()]: [undefined] and [null] have no properties. *)
Definition method_toString (v : JSValue) : completion string :=
  match v with
  | VUndefined | VNull => Throw TypeError
  | _ => Normal (ToString v)
  end.

(** [a === b] *)
Definition strict_equal (a b : JSValue) : bool :=
  match a, b with
  | VUndefined, VUndefined => true
  | VNull, VNull => true
  | VBool x, VBool y => Bool.eqb x y
  | VNumber (Finite x), VNumber (Finite y) => Z.eqb x y
  | VNumber (Infinity x), VNumber (Infinity y) => Bool.eqb x y
  | VString x, VString y => String.eqb x y
  | _, _ => false
  end.

(** [a || b] *)
Definition js_or (a b : JSValue) : JSValue :=
  if ToBoolean a then a else b.

(** ** Strings *)

(** White space and line terminators among the code units below 256. *)
Definition is_white_space (c : ascii) : bool :=
  match nat_of_ascii c with
  | 9 | 10 | 11 | 12 | 13 | 32 | 160 => true
  | _ => false
  end.

Fixpoint trimStart (s : string) : string :=
  match s with
  | EmptyString => EmptyString
  | String c r => if is_white_space c then trimStart r else s
  end.

Fixpoint string_rev_onto (s acc : string) : string :=
  match s with
  | EmptyString => acc
  | String c r => string_rev_onto r (String c acc)
  end.

Definition string_rev (s : string) : string := string_rev_onto s EmptyString.

Definition trimEnd (s : string) : string :=
  string_rev (trimStart (string_rev s)).

(** [s.trim()] *)
Definition trim (s : string) : string := trimEnd (trimStart s).

Fixpoint string_forallb (p : ascii -> bool) (s : string) : bool :=
  match s with
  | EmptyString => true
  | String c r => p c && string_forallb p r
  end.

Fixpoint string_drop (n : nat) (s : string) : string :=
  match n, s with
  | O, _ => s
  | S k, EmptyString => EmptyString
  | S k, String _ r => string_drop k r
  end.

(** [occurs p s]: [p] is a substring of [s]. *)
Fixpoint occurs (p s : string) : bool :=
  prefix p s ||
  match s with
  | EmptyString => false
  | String _ r => occurs p r
  end.

(** ** Objects and maps *)

(** A plain object, by its own entries in enumeration order. *)
Definition JSObject (V : Type) : Type := list (string * V).

(** [obj[key]], [None] standing for [undefined]. *)
Fixpoint obj_get {V : Type} (key : string) (o : JSObject V) : option V :=
  match o with
  | [] => None
  | (k, v) :: r => if String.eqb k key then Some v else obj_get key r
  end.

Definition is_digit (c : ascii) : bool :=
  let n := nat_of_ascii c in (48 <=? n)%nat && (n <=? 57)%nat.

Fixpoint digits_value (s : string) (acc : N) : N :=
  match s with
  | EmptyString => acc
  | String c r => digits_value r (10 * acc + N.of_nat (nat_of_ascii c - 48))%N
  end.

(** A property key is an array index when it is the canonical decimal text
    of an integer below [2^32 - 1]; such keys are enumerated first, in
    ascending numeric order. *)
Definition array_index (key : string) : option N :=
  match key with
  | EmptyString => None
  | String c r =>
      if string_forallb is_digit key
         && (negb (Ascii.eqb c "0") || String.eqb r EmptyString)
         && (String.length key <=? 10)%nat
         && (digits_value key 0 <? 4294967295)%N
      then Some (digits_value key 0)
      else None
  end.

(** Where a new property is created among the existing ones. *)
Fixpoint obj_insert_index {V : Type} (i : N) (key : string) (v : V)
    (o : JSObject V) : JSObject V :=
  match o with
  | [] => [(key, v)]
  | (k, w) :: r =>
      match array_index k with
      | Some j => if (j <? i)%N then (k, w) :: obj_insert_index i key v r
                  else (key, v) :: o
      | None => (key, v) :: o
      end
  end.

Fixpoint obj_update {V : Type} (key : string) (v : V) (o : JSObject V)
    : JSObject V :=
  match o with
  | [] => []
  | (k, w) :: r =>
      if String.eqb k key then (k, v) :: r else (k, w) :: obj_update key v r
  end.

(** [obj[key] = v] *)
Definition obj_set {V : Type} (key : string) (v : V) (o : JSObject V)
    : JSObject V :=
  match obj_get key o with
  | Some _ => obj_update key v o
  | None =>
      match array_index key with
      | Some i => obj_insert_index i key v o
      | None => (o ++ [(key, v)])%list
      end
  end.

(** [Object.entries(obj)] *)
Definition Object_entries {V : Type} (o : JSObject V) : list (string * V) := o.

(** A [Map] with string keys, by its entries in insertion order. *)
Module JSMap.

Definition t (V : Type) : Type := list (string * V).

Definition empty {V : Type} : t V := [].

Fixpoint get {V : Type} (key : string) (m : t V) : option V :=
  match m with
  | [] => None
  | (k, v) :: r => if String.eqb k key then Some v else get key r
  end.

(** [map.set(key, v)]: an existing key keeps its place. *)
Fixpoint set {V : Type} (key : string) (v : V) (m : t V) : t V :=
  match m with
  | [] => [(key, v)]
  | (k, w) :: r =>
      if String.eqb k key then (k, v) :: r else (k, w) :: set key v r
  end.

Fixpoint delete {V : Type} (key : string) (m : t V) : t V :=
  match m with
  | [] => []
  | (k, w) :: r =>
      if String.eqb k key then r else (k, w) :: delete key r
  end.

Definition clear {V : Type} (m : t V) : t V := [].

Definition keys {V : Type} (m : t V) : list string := map fst m.

Definition entries {V : Type} (m : t V) : list (string * V) := m.

End JSMap.

(** ** Replacing placeholders

    [message.replace(new RegExp(`\\{${key}\\}`, 'g'), value)].  When [key]
    holds no syntax character of the pattern language the expression
    matches the text [{key}] and nothing else; the matches are then the
    successive leftmost occurrences, and each is replaced by the expansion
    of the replacement text, in which [$$], [$&], [$`] and [$'] are
    patterns (there is no capture group, so [$1] and the like stand for
    themselves).  When [key] holds, besides such characters, only the
    assertions [^] and [$], the expression matches nothing: [^] would have
    to hold after the opening brace, [$] before the closing one.  For the
    other keys the expression is left to the runtime. *)

Definition is_syntax_character (c : ascii) : bool :=
  match nat_of_ascii c with
  | 36 (* $ *) | 40 (* ( *) | 41 (* ) *) | 42 (* * *) | 43 (* + *)
  | 46 (* . *) | 63 (* ? *) | 91 (* [ *) | 92 (* \ *)
  | 93 (* ] *) | 94 (* ^ *) | 123 (* { *) | 124 (* | *) | 125 (* } *) => true
  | _ => false
  end.

Definition plain_key (key : string) : bool :=
  string_forallb (fun c => negb (is_syntax_character c)) key.

Definition is_assertion (c : ascii) : bool :=
  Ascii.eqb c "^" || Ascii.eqb c "$".

Definition plain_or_assertion_key (key : string) : bool :=
  string_forallb (fun c => negb (is_syntax_character c) || is_assertion c) key.

Definition placeholder (key : string) : string := "{" ++ key ++ "}".

Fixpoint GetSubstitution (matched before after replacement : string)
    : string :=
  let expand := GetSubstitution matched before after in
  match replacement with
  | EmptyString => EmptyString
  | String c rest =>
      if Ascii.eqb c "$" then
        match rest with
        | EmptyString => String c EmptyString
        | String d r =>
            if Ascii.eqb d "$" then String "$" (expand r)
            else if Ascii.eqb d "&" then matched ++ expand r
            else if Ascii.eqb d "`" then before ++ expand r
            else if Ascii.eqb d "'" then after ++ expand r
            else String c (expand rest)
        end
      else String c (expand rest)
  end.

(** [replace_from pat repl before s skip]: [before] is the part of the
    subject already scanned, [s] the part still to scan, [skip] the number
    of code units of [s] that belong to the match just replaced. *)
Fixpoint replace_from (pat repl before s : string) (skip : nat) : string :=
  match s with
  | EmptyString => EmptyString
  | String c r =>
      match skip with
      | S k => replace_from pat repl (before ++ String c EmptyString) r k
      | O =>
          if prefix pat s then
            GetSubstitution pat before (string_drop (String.length pat) s) repl
            ++ replace_from pat repl (before ++ String c EmptyString) r
                 (String.length pat - 1)
          else
            String c
              (replace_from pat repl (before ++ String c EmptyString) r 0)
      end
  end.

Definition replace_all (pat repl s : string) : string :=
  replace_from pat repl EmptyString s 0.

(** ** The runtime

    What the source asks of the JavaScript runtime and the embedding does
    not compute.  [Double] is the runtime's number type; [RegExp_test src s]
    is [new RegExp(src).test(s)], [RegExp_replace src flags s r] is
    [s.replace(new RegExp(src, flags), r)]; both throw where the
    constructor does. *)

Record Runtime : Type := {
  Double : Type;
  Double_of : JSNumber -> Double;
  Double_isNaN : Double -> bool;
  Double_le : Double -> Double -> bool;
  StringToNumber : string -> Double;
  parseFloat : string -> Double;
  parseInt : string -> Double;
  RegExp_test : string -> string -> completion bool;
  RegExp_replace : string -> string -> string -> string -> completion string;
  Date_valid : JSValue -> bool;
  URL_valid : string -> bool
}.

(** ** The data model *)

Definition Params : Type := JSObject JSValue.
Definition FormData : Type := JSObject JSValue.

(** One entry of a field's [rules]: a bare rule name, or an object with a
    [name] and, possibly, [params] and [message]. *)
Inductive RuleReference : Type :=
| RuleName (name : string)
| RuleObject (name : string) (params : option Params)
    (message : option string).

(** The [rules] property of a configuration: an array of references, or
    anything else (a scalar, [undefined] when the property is missing). *)
Inductive RulesField : Type :=
| RulesArray (l : list RuleReference)
| RulesOther (v : JSValue).

(** What [configureField] is given: an object, or a scalar. *)
Inductive FieldConfig : Type :=
| ConfigObject (rules : RulesField)
| ConfigScalar (v : JSValue).

Record RuleFailure : Type := {
  rule : string;
  message : string;
  params : Params
}.

Record FieldValidationResult : Type := {
  isValid : bool;
  errors : list RuleFailure
}.

(** [{field: fieldName, ...error}] *)
Record FormError : Type := {
  field : string;
  error_rule : string;
  error_message : string;
  error_params : Params
}.

Record FormValidationResult : Type := {
  form_isValid : bool;
  form_fields : JSObject FieldValidationResult;
  form_errors : list FormError
}.

(** A call [validator(value, ruleParams, formData)] made by the engine,
    with its outcome. *)
Record Invocation : Type := {
  called_rule : string;
  called_value : JSValue;
  called_params : Params;
  called_formData : FormData;
  returned : completion JSValue
}.

Section Validator.

(** The world outside the validator that a registered predicate may read
    and change. *)
Context {World : Type}.

Definition Predicate : Type :=
  JSValue -> Params -> FormData -> World -> completion JSValue * World.

(** A predicate that neither reads nor changes the world. *)
Definition pure_predicate (p : Predicate) : Prop :=
  exists f, forall v ps fd w, p v ps fd w = (f v ps fd, w).

Definition lift_predicate
    (f : JSValue -> Params -> FormData -> completion JSValue) : Predicate :=
  fun v ps fd w => (f v ps fd, w).

(** The fields of a [FormValidator] instance. *)
Record FormValidator : Type := {
  validationRules : JSMap.t Predicate;
  errorMessages : JSMap.t string;
  fieldConfigs : JSMap.t FieldConfig
}.

Record Machine : Type := {
  self : FormValidator;
  console : list string;
  world : World;
  invocations : list Invocation
}.

(** *** The monad of methods *)

Definition M (A : Type) : Type := Machine -> completion A * Machine.

Definition ret {A : Type} (a : A) : M A := fun m => (Normal a, m).

Definition bind {A B : Type} (c : M A) (k : A -> M B) : M B :=
  fun m =>
    match c m with
    | (Normal a, m') => k a m'
    | (Throw e, m') => (Throw e, m')
    end.

Definition throw {A : Type} (e : JSError) : M A := fun m => (Throw e, m).

Definition lift_completion {A : Type} (c : completion A) : M A :=
  fun m => (c, m).

Definition get_this : M FormValidator := fun m => (Normal (self m), m).

Definition put_this (v : FormValidator) : M unit :=
  fun m => (Normal tt,
            {| self := v; console := console m; world := world m;
               invocations := invocations m |}).

Definition console_warn (line : string) : M unit :=
  fun m => (Normal tt,
            {| self := self m; console := (console m ++ [line])%list;
               world := world m; invocations := invocations m |}).

(** [validator(value, ruleParams, formData)] *)
Definition call_predicate (name : string) (validator : Predicate)
    (value : JSValue) (ruleParams : Params) (formData : FormData)
    : M JSValue :=
  fun m =>
    let (r, w) := validator value ruleParams formData (world m) in
    (r, {| self := self m; console := console m; world := w;
           invocations :=
             (invocations m ++
              [{| called_rule := name; called_value := value;
                  called_params := ruleParams;
                  called_formData := formData;
                  returned := r |}])%list |}).

End Validator.

Arguments Predicate : clear implicits.
Arguments FormValidator : clear implicits.
Arguments Machine : clear implicits.
Arguments M : clear implicits.

Declare Scope js_scope.
Delimit Scope js_scope with js.
Notation "x <- c ;; k" := (bind c (fun x => k))
  (at level 61, c at next level, right associativity) : js_scope.
Notation "c ;;; k" := (bind c (fun _ => k))
  (at level 61, right associativity) : js_scope.

(** ** The built-in rules *)

Definition dquote : string := String (ascii_of_nat 34) EmptyString.

(** [obj.key], [undefined] when the object has no such property. *)
Definition prop (key : string) (o : JSObject JSValue) : JSValue :=
  match obj_get key o with
  | Some v => v
  | None => VUndefined
  end.

Definition cbind {A B : Type} (c : completion A) (k : A -> completion B)
    : completion B :=
  match c with
  | Normal a => k a
  | Throw e => Throw e
  end.

Section BuiltinRules.

Variable rt : Runtime.

Definition ToNumber (v : JSValue) : Double rt :=
  match v with
  | VUndefined => Double_of rt NaN
  | VNull => Double_of rt (Finite 0)
  | VBool true => Double_of rt (Finite 1)
  | VBool false => Double_of rt (Finite 0)
  | VNumber n => Double_of rt n
  | VString s => StringToNumber rt s
  end.

(** [a >= b] and [a <= b] on numbers *)
Definition js_ge (a b : Double rt) : bool := Double_le rt b a.
Definition js_le (a b : Double rt) : bool := Double_le rt a b.

(** [isNaN(value)] *)
Definition isNaN (v : JSValue) : bool := Double_isNaN rt (ToNumber v).

(** [value.length] *)
Definition length_property (v : JSValue) : JSValue :=
  match v with
  | VString s => VNumber (Finite (Z.of_nat (String.length s)))
  | _ => VUndefined
  end.

(** [regex.test(value)] for the expression of source [src] *)
Definition test (src : string) (value : JSValue) : completion bool :=
  RegExp_test rt src (ToString value).

Definition rule_required (value : JSValue) (params : Params)
    (formData : FormData) : completion JSValue :=
  if negb (strict_equal value VNull) && negb (strict_equal value VUndefined)
  then cbind (method_toString value) (fun text =>
         Normal (VBool (negb (String.eqb (trim text) EmptyString))))
  else Normal (VBool false).

Definition rule_minLength (value : JSValue) (params : Params)
    (formData : FormData) : completion JSValue :=
  if negb (ToBoolean value) then Normal (VBool true)
  else cbind (method_toString value) (fun text =>
         Normal (VBool (js_ge
           (Double_of rt (Finite (Z.of_nat (String.length text))))
           (ToNumber (prop "length" params))))).

Definition rule_maxLength (value : JSValue) (params : Params)
    (formData : FormData) : completion JSValue :=
  if negb (ToBoolean value) then Normal (VBool true)
  else cbind (method_toString value) (fun text =>
         Normal (VBool (js_le
           (Double_of rt (Finite (Z.of_nat (String.length text))))
           (ToNumber (prop "length" params))))).

Definition rule_email (value : JSValue) (params : Params)
    (formData : FormData) : completion JSValue :=
  if negb (ToBoolean value) then Normal (VBool true)
  else cbind (test "^[^\s@]+@[^\s@]+\.[^\s@]+$" value) (fun b =>
         Normal (VBool b)).

Definition rule_phone (value : JSValue) (params : Params)
    (formData : FormData) : completion JSValue :=
  if negb (ToBoolean value) then Normal (VBool true)
  else
    match value with
    | VString s =>
        cbind (RegExp_replace rt "[\s\-\(\)]" "g" s EmptyString) (fun stripped =>
        cbind (test "^[\+]?[1-9][\d]{0,15}$" (VString stripped)) (fun b =>
          Normal (VBool b)))
    | _ => Throw TypeError
    end.

Definition rule_number (value : JSValue) (params : Params)
    (formData : FormData) : completion JSValue :=
  if negb (ToBoolean value) then Normal (VBool true)
  else Normal (VBool (negb (isNaN value)
                      && negb (Double_isNaN rt (parseFloat rt (ToString value))))).

Definition rule_min (value : JSValue) (params : Params)
    (formData : FormData) : completion JSValue :=
  if negb (ToBoolean value) then Normal (VBool true)
  else Normal (VBool (js_ge (parseFloat rt (ToString value))
                            (ToNumber (prop "value" params)))).

Definition rule_max (value : JSValue) (params : Params)
    (formData : FormData) : completion JSValue :=
  if negb (ToBoolean value) then Normal (VBool true)
  else Normal (VBool (js_le (parseFloat rt (ToString value))
                            (ToNumber (prop "value" params)))).

(** [new RegExp(pattern)]: an [undefined] pattern is the empty one. *)
Definition RegExp_source (pattern : JSValue) : string :=
  match pattern with
  | VUndefined => "(?:)"
  | _ => ToString pattern
  end.

Definition rule_pattern (value : JSValue) (params : Params)
    (formData : FormData) : completion JSValue :=
  if negb (ToBoolean value) then Normal (VBool true)
  else cbind (test (RegExp_source (prop "pattern" params)) value) (fun b =>
         Normal (VBool b)).

Definition rule_password (value : JSValue) (params : Params)
    (formData : FormData) : completion JSValue :=
  if negb (ToBoolean value) then Normal (VBool true)
  else
    cbind (test "[A-Z]" value) (fun hasUpperCase =>
    cbind (test "[a-z]" value) (fun hasLowerCase =>
    cbind (test "\d" value) (fun hasNumbers =>
    cbind (test ("[!@#$%^&*(),.?" ++ dquote ++ ":{}|<>]") value)
      (fun hasSpecialChar =>
    let isLongEnough :=
      js_ge (ToNumber (length_property value))
            (ToNumber (js_or (prop "minLength" params) (VNumber (Finite 8))))
    in
    Normal (VBool (hasUpperCase && hasLowerCase && hasNumbers
                   && hasSpecialChar && isLongEnough)))))).

Definition rule_confirmPassword (value : JSValue) (params : Params)
    (formData : FormData) : completion JSValue :=
  if negb (ToBoolean value) then Normal (VBool true)
  else
    let originalPassword :=
      prop (ToString (prop "matchField" params)) formData in
    Normal (VBool (strict_equal value originalPassword)).

Definition rule_age (value : JSValue) (params : Params)
    (formData : FormData) : completion JSValue :=
  if negb (ToBoolean value) then Normal (VBool true)
  else
    let age := parseInt rt (ToString value) in
    let minAge := js_or (prop "min" params) (VNumber (Finite 0)) in
    let maxAge := js_or (prop "max" params) (VNumber (Finite 120)) in
    Normal (VBool (js_ge age (ToNumber minAge) && js_le age (ToNumber maxAge))).

Definition rule_date (value : JSValue) (params : Params)
    (formData : FormData) : completion JSValue :=
  if negb (ToBoolean value) then Normal (VBool true)
  else Normal (VBool (Date_valid rt value)).

Definition rule_url (value : JSValue) (params : Params)
    (formData : FormData) : completion JSValue :=
  if negb (ToBoolean value) then Normal (VBool true)
  else Normal (VBool (URL_valid rt (ToString value))).

End BuiltinRules.

(** ** The class [FormValidator] *)

Section Methods.

Context {World : Type}.
Variable rt : Runtime.

Local Open Scope js_scope.

Local Abbreviation M := (M World).
Local Abbreviation Predicate := (Predicate World).
Local Abbreviation FormValidator := (FormValidator World).

(** [list.forEach(callback)], the locals the callback assigns to being
    threaded through the iterations. *)
Fixpoint forEach {A S : Type} (l : list A) (callback : A -> S -> M S)
    (locals : S) : M S :=
  match l with
  | [] => ret locals
  | x :: r => locals' <- callback x locals ;; forEach r callback locals'
  end.

Definition addValidationRule (name : string) (validator : Predicate)
    (message : string) : M unit :=
  this <- get_this ;;
  put_this {| validationRules := JSMap.set name validator (validationRules this);
              errorMessages := errorMessages this;
              fieldConfigs := fieldConfigs this |} ;;;
  this <- get_this ;;
  put_this {| validationRules := validationRules this;
              errorMessages := JSMap.set name message (errorMessages this);
              fieldConfigs := fieldConfigs this |}.

Definition initializeDefaultRules : M unit :=
  addValidationRule "required" (lift_predicate rule_required)
    "This field is required" ;;;
  addValidationRule "minLength" (lift_predicate (rule_minLength rt))
    "Must be at least {length} characters long" ;;;
  addValidationRule "maxLength" (lift_predicate (rule_maxLength rt))
    "Must be no more than {length} characters long" ;;;
  addValidationRule "email" (lift_predicate (rule_email rt))
    "Please enter a valid email address" ;;;
  addValidationRule "phone" (lift_predicate (rule_phone rt))
    "Please enter a valid phone number" ;;;
  addValidationRule "number" (lift_predicate (rule_number rt))
    "Please enter a valid number" ;;;
  addValidationRule "min" (lift_predicate (rule_min rt))
    "Value must be at least {value}" ;;;
  addValidationRule "max" (lift_predicate (rule_max rt))
    "Value must be no more than {value}" ;;;
  addValidationRule "pattern" (lift_predicate (rule_pattern rt))
    "Please match the required format" ;;;
  addValidationRule "password" (lift_predicate (rule_password rt))
    "Password must contain uppercase, lowercase, numbers, special characters, and be at least 8 characters long" ;;;
  addValidationRule "confirmPassword" (lift_predicate rule_confirmPassword)
    "Passwords do not match" ;;;
  addValidationRule "age" (lift_predicate (rule_age rt))
    "Please enter a valid age between {min} and {max}" ;;;
  addValidationRule "date" (lift_predicate (rule_date rt))
    "Please enter a valid date" ;;;
  addValidationRule "url" (lift_predicate (rule_url rt))
    "Please enter a valid URL".

(** [new FormValidator()] *)
Definition constructor : M unit :=
  put_this {| validationRules := JSMap.empty;
              errorMessages := JSMap.empty;
              fieldConfigs := JSMap.empty |} ;;;
  initializeDefaultRules.

Definition configureField (fieldName : string) (config : FieldConfig)
    : M unit :=
  this <- get_this ;;
  put_this {| validationRules := validationRules this;
              errorMessages := errorMessages this;
              fieldConfigs := JSMap.set fieldName config (fieldConfigs this) |}.

Definition configureFields (configs : JSObject FieldConfig) : M unit :=
  forEach (Object_entries configs)
    (fun entry (_ : unit) => configureField (fst entry) (snd entry)) tt.

(** One placeholder substitution of [formatErrorMessage]. *)
Definition replace_placeholder (key : string) (value : JSValue)
    (message : string) : completion string :=
  if plain_key key
  then Normal (replace_all (placeholder key) (ToString value) message)
  else if plain_or_assertion_key key
  then Normal message
  else RegExp_replace rt ("\{" ++ key ++ "\}") "g" message (ToString value).

(** The callback of [Object.entries(params).forEach] in
    [formatErrorMessage]. *)
Definition replace_entry (entry : string * JSValue) (message : string)
    : M string :=
  let key := fst entry in
  let value := snd entry in
  if negb (strict_equal value VNull)
     && negb (strict_equal value VUndefined)
     && negb (strict_equal value (VString EmptyString))
  then lift_completion (replace_placeholder key value message)
  else ret message.

(** [params] is [None] when the argument is not an object. *)
Definition formatErrorMessage (ruleName : string) (params : option Params)
    : M string :=
  this <- get_this ;;
  let message :=
    match JSMap.get ruleName (errorMessages this) with
    | Some template =>
        if String.eqb template EmptyString then "Invalid value" else template
    | None => "Invalid value"
    end in
  match params with
  | None => ret message
  | Some params => forEach (Object_entries params) replace_entry message
  end.

Definition ruleName_of (r : RuleReference) : string :=
  match r with
  | RuleName name => name
  | RuleObject name _ _ => name
  end.

Definition ruleParams_of (r : RuleReference) : Params :=
  match r with
  | RuleName _ => []
  | RuleObject _ (Some params) _ => params
  | RuleObject _ None _ => []
  end.

Definition customMessage_of (r : RuleReference) : option string :=
  match r with
  | RuleName _ => None
  | RuleObject _ _ message => message
  end.

(** The callback of [config.rules.forEach] in [validateField]. *)
Definition validate_rule (value : JSValue) (formData : FormData)
    (r : RuleReference) (errors : list RuleFailure)
    : M (list RuleFailure) :=
  let ruleName := ruleName_of r in
  let ruleParams := ruleParams_of r in
  let customMessage := customMessage_of r in
  this <- get_this ;;
  match JSMap.get ruleName (validationRules this) with
  | None =>
      console_warn ("Validation rule " ++ dquote ++ ruleName ++ dquote
                    ++ " not found") ;;;
      ret errors
  | Some validator =>
      isValid <- call_predicate ruleName validator value ruleParams formData ;;
      if negb (ToBoolean isValid) then
        message <-
          match customMessage with
          | Some text =>
              if String.eqb text EmptyString
              then formatErrorMessage ruleName (Some ruleParams)
              else ret text
          | None => formatErrorMessage ruleName (Some ruleParams)
          end ;;
        ret (errors ++ [{| rule := ruleName; message := message;
                           params := ruleParams |}])%list
      else ret errors
  end.

Definition valid_result : FieldValidationResult :=
  {| isValid := true; errors := [] |}.

(** The parameter [formData = {}]: [None] is the omitted argument. *)
Definition formData_default (formData : option FormData) : FormData :=
  match formData with
  | Some fd => fd
  | None => []
  end.

Definition validateField (fieldName : string) (value : JSValue)
    (formData : option FormData) : M FieldValidationResult :=
  let formData := formData_default formData in
  this <- get_this ;;
  match JSMap.get fieldName (fieldConfigs this) with
  | None => ret valid_result
  | Some (ConfigScalar v) =>
      if negb (ToBoolean v) then ret valid_result else throw TypeError
  | Some (ConfigObject (RulesOther _)) => throw TypeError
  | Some (ConfigObject (RulesArray rules)) =>
      errors <- forEach rules (validate_rule value formData) [] ;;
      ret {| isValid := Nat.eqb (List.length errors) 0; errors := errors |}
  end.

Definition getAllErrors (results : JSObject FieldValidationResult)
    : list FormError :=
  fold_left
    (fun allErrors entry =>
       let fieldName := fst entry in
       let result := snd entry in
       if negb (isValid result) then
         fold_left
           (fun allErrors error =>
              allErrors ++ [{| field := fieldName;
                               error_rule := rule error;
                               error_message := message error;
                               error_params := params error |}])%list
           (errors result) allErrors
       else allErrors)
    (Object_entries results) [].

(** The callback of [this.fieldConfigs.forEach] in [validateForm]; the
    locals are [results] and [isFormValid]. *)
Definition validate_entry (formData : FormData)
    (entry : string * FieldConfig)
    (locals : JSObject FieldValidationResult * bool)
    : M (JSObject FieldValidationResult * bool) :=
  let fieldName := fst entry in
  let (results, isFormValid) := locals in
  let fieldValue := prop fieldName formData in
  fieldResult <- validateField fieldName fieldValue (Some formData) ;;
  ret (obj_set fieldName fieldResult results,
       if negb (isValid fieldResult) then false else isFormValid).

Definition validateForm (formData : FormData) : M FormValidationResult :=
  this <- get_this ;;
  locals <-
    forEach (JSMap.entries (fieldConfigs this)) (validate_entry formData)
      ([], true) ;;
  let (results, isFormValid) := locals in
  ret {| form_isValid := isFormValid;
         form_fields := results;
         form_errors := getAllErrors results |}.

Definition resetField (fieldName : string) : M unit :=
  this <- get_this ;;
  put_this {| validationRules := validationRules this;
              errorMessages := errorMessages this;
              fieldConfigs := JSMap.delete fieldName (fieldConfigs this) |}.

Definition clearAll : M unit :=
  this <- get_this ;;
  put_this {| validationRules := validationRules this;
              errorMessages := errorMessages this;
              fieldConfigs := JSMap.clear (fieldConfigs this) |}.

Definition getAvailableRules : M (list string) :=
  this <- get_this ;;
  ret (JSMap.keys (validationRules this)).

End Methods.

(** ** The public surface

    The methods the specification lists as the interface of the engine,
    as calls that can be run on a machine. *)

Inductive Method : Type :=
| addValidationRule_m
| configureField_m
| configureFields_m
| validateField_m
| validateForm_m
| formatErrorMessage_m
| resetField_m
| clearAll_m
| getAvailableRules_m.

Inductive Call (World : Type) : Type :=
| Call_addValidationRule (name : string) (validator : Predicate World)
    (message : string)
| Call_configureField (fieldName : string) (config : FieldConfig)
| Call_configureFields (configs : JSObject FieldConfig)
| Call_validateField (fieldName : string) (value : JSValue)
    (formData : option FormData)
| Call_validateForm (formData : FormData)
| Call_formatErrorMessage (ruleName : string) (params : option Params)
| Call_resetField (fieldName : string)
| Call_clearAll
| Call_getAvailableRules.

Arguments Call_clearAll {World}.
Arguments Call_getAvailableRules {World}.
Arguments Call_configureField {World} fieldName config.
Arguments Call_configureFields {World} configs.
Arguments Call_validateField {World} fieldName value formData.
Arguments Call_validateForm {World} formData.
Arguments Call_formatErrorMessage {World} ruleName params.
Arguments Call_resetField {World} fieldName.

Definition method_of {World : Type} (c : Call World) : Method :=
  match c with
  | Call_addValidationRule _ _ _ => addValidationRule_m
  | Call_configureField _ _ => configureField_m
  | Call_configureFields _ => configureFields_m
  | Call_validateField _ _ _ => validateField_m
  | Call_validateForm _ => validateForm_m
  | Call_formatErrorMessage _ _ => formatErrorMessage_m
  | Call_resetField _ => resetField_m
  | Call_clearAll => clearAll_m
  | Call_getAvailableRules => getAvailableRules_m
  end.

(** The machine after a call, whether it returned or threw. *)
Definition after_call {World : Type} (rt : Runtime) (c : Call World)
    (m : Machine World) : Machine World :=
  match c with
  | Call_addValidationRule name validator message =>
      snd (addValidationRule name validator message m)
  | Call_configureField fieldName config =>
      snd (configureField fieldName config m)
  | Call_configureFields configs => snd (configureFields configs m)
  | Call_validateField fieldName value formData =>
      snd (validateField rt fieldName value formData m)
  | Call_validateForm formData => snd (validateForm rt formData m)
  | Call_formatErrorMessage ruleName params =>
      snd (formatErrorMessage rt ruleName params m)
  | Call_resetField fieldName => snd (resetField fieldName m)
  | Call_clearAll => snd (clearAll m)
  | Call_getAvailableRules => snd (getAvailableRules m)
  end.

Fixpoint after_calls {World : Type} (rt : Runtime) (cs : list (Call World))
    (m : Machine World) : Machine World :=
  match cs with
  | [] => m
  | c :: r => after_calls rt r (after_call rt c m)
  end.

(** The methods that write to the registry or to the configuration store. *)
Definition writes_state (me : Method) : bool :=
  match me with
  | addValidationRule_m | configureField_m | configureFields_m
  | resetField_m | clearAll_m => true
  | validateField_m | validateForm_m | formatErrorMessage_m
  | getAvailableRules_m => false
  end.

(** [registers name c]: the call is [addValidationRule(name, ...)]. *)
Definition registers {World : Type} (name : string) (c : Call World) : bool :=
  match c with
  | Call_addValidationRule n _ _ => String.eqb n name
  | _ => false
  end.

(** ** The message formatter as the specification words it

    The template is the one registered for the rule, ['Invalid value'] when
    the rule is unknown; every occurrence of [{key}] is replaced by the text
    of the value, for the keys whose value is neither [null], [undefined]
    nor the empty string. *)

Fixpoint substitute_from (pat text s : string) (skip : nat) : string :=
  match s with
  | EmptyString => EmptyString
  | String c r =>
      match skip with
      | S k => substitute_from pat text r k
      | O =>
          if prefix pat s
          then text ++ substitute_from pat text r (String.length pat - 1)
          else String c (substitute_from pat text r 0)
      end
  end.

(** Every occurrence of [pat] in [s] replaced by [text]. *)
Definition substitute (pat text s : string) : string :=
  substitute_from pat text s 0.

Definition has_value (v : JSValue) : bool :=
  match v with
  | VNull | VUndefined => false
  | VString s => negb (String.eqb s EmptyString)
  | _ => true
  end.

Definition substitute_params (params : Params) (template : string) : string :=
  fold_left
    (fun message entry =>
       if has_value (snd entry)
       then substitute (placeholder (fst entry)) (ToString (snd entry)) message
       else message)
    params template.

Definition spec_formatErrorMessage (templates : JSMap.t string)
    (ruleName : string) (params : Params) : string :=
  substitute_params params
    match JSMap.get ruleName templates with
    | Some template => template
    | None => "Invalid value"
    end.

(** The template [formatErrorMessage] starts from. *)
Definition template_of (templates : JSMap.t string) (ruleName : string)
    : string :=
  match JSMap.get ruleName templates with
  | Some template => if String.eqb template EmptyString then "Invalid value" else template
  | None => "Invalid value"
  end.

Definition dollar_free (s : string) : bool :=
  string_forallb (fun c => negb (Ascii.eqb c "$")) s.

(** The line [validateField] writes for a rule name it does not find. *)
Definition warning_line (ruleName : string) : string :=
  "Validation rule " ++ dquote ++ ruleName ++ dquote ++ " not found".

Definition registered {World : Type} (v : FormValidator World)
    (ruleName : string) : bool :=
  match JSMap.get ruleName (validationRules v) with
  | Some _ => true
  | None => false
  end.

(** The invocation [validateField] logs for a reference that names the
    registered predicate [validator], run in world [w]. *)
Definition invocation_of {World : Type} (value : JSValue)
    (formData : FormData) (r : RuleReference) (validator : Predicate World)
    (w : World) : Invocation :=
  {| called_rule := ruleName_of r;
     called_value := value;
     called_params := ruleParams_of r;
     called_formData := formData;
     returned := fst (validator value (ruleParams_of r) formData w) |}.


Definition plain_params (ps : Params) : bool :=
  forallb (fun entry => plain_key (fst entry)) ps.

(** ** Machines to run the methods on *)

(** A runtime that compares integers and offers nothing else; it runs the
    methods on inputs that do not reach the other services. *)
Definition bare_runtime : Runtime := {|
  Double := JSNumber;
  Double_of := fun n => n;
  Double_isNaN := fun n => match n with NaN => true | _ => false end;
  Double_le := fun a b =>
    match a, b with
    | Finite x, Finite y => Z.leb x y
    | _, _ => false
    end;
  StringToNumber := fun _ => NaN;
  parseFloat := fun _ => NaN;
  parseInt := fun _ => NaN;
  RegExp_test := fun _ _ => Throw SyntaxError;
  RegExp_replace := fun _ _ _ _ => Throw SyntaxError;
  Date_valid := fun _ => false;
  URL_valid := fun _ => false
|}.

Definition blank_machine {World : Type} (w : World) : Machine World :=
  {| self := {| validationRules := JSMap.empty;
                errorMessages := JSMap.empty;
                fieldConfigs := JSMap.empty |};
     console := [];
     world := w;
     invocations := [] |}.

(** The machine after [new FormValidator()]. *)
Definition new_machine {World : Type} (rt : Runtime) (w : World)
    : Machine World :=
  snd (constructor rt (blank_machine w)).

Definition with_field {World : Type} (fieldName : string)
    (config : FieldConfig) (m : Machine World) : Machine World :=
  snd (configureField fieldName config m).

Definition with_rule {World : Type} (name : string)
    (validator : Predicate World) (message : string) (m : Machine World)
    : Machine World :=
  snd (addValidationRule name validator message m).

(** A predicate that throws whatever it is given. *)
Definition throwing_predicate {World : Type} (e : JSError) : Predicate World :=
  fun _ _ _ w => (Throw e, w).

Definition constant_predicate {World : Type} (v : JSValue) : Predicate World :=
  fun _ _ _ w => (Normal v, w).

(** A configuration whose [rules] is a string instead of a list. *)
Definition malformed_config : FieldConfig :=
  ConfigObject (RulesOther (VString "required")).

(** The validator after [new FormValidator()] with a rule [explode] whose
    predicate throws, and a field [name] that asks for [explode] and then
    for [required]. *)
Definition exploding_machine : Machine unit :=
  with_field "name"
    (ConfigObject (RulesArray [RuleName "explode"; RuleName "required"]))
    (with_rule "explode" (throwing_predicate (Thrown (VString "internal")))
       "Exploded" (new_machine bare_runtime tt)).

(** The loop of [formatErrorMessage] as a function of the message. *)
Fixpoint format_steps (rt : Runtime) (entries : list (string * JSValue))
    (message : string) : completion string :=
  match entries with
  | [] => Normal message
  | entry :: r =>
      if has_value (snd entry)
      then cbind (replace_placeholder rt (fst entry) (snd entry) message)
                 (format_steps rt r)
      else format_steps rt r message
  end.

(** The message of the failure [validateField] records for a reference. *)
Definition failure_message (rt : Runtime) (templates : JSMap.t string)
    (r : RuleReference) : completion string :=
  match customMessage_of r with
  | Some text =>
      if String.eqb text EmptyString
      then format_steps rt (ruleParams_of r) (template_of templates (ruleName_of r))
      else Normal text
  | None =>
      format_steps rt (ruleParams_of r) (template_of templates (ruleName_of r))
  end.

(** ** Notions the properties are stated with *)

(** A computation that leaves the validator object as it found it. *)
Definition keeps_this (World : Type) {A : Type} (c : M World A) : Prop :=
  forall m, self (snd (c m)) = self m.

Arguments keeps_this World {A} c.

(** A computation that leaves the rule registry as it found it. *)
Definition keeps_registry (World : Type) {A : Type} (c : M World A)
    : Prop :=
  forall m,
    validationRules (self (snd (c m))) = validationRules (self m)
    /\ errorMessages (self (snd (c m))) = errorMessages (self m).

Arguments keeps_registry World {A} c.


(** [value !== null && value !== undefined] *)
Definition present (v : JSValue) : bool :=
  match v with
  | VUndefined | VNull => false
  | _ => true
  end.

Definition builtin_names : list string :=
  ["required"; "minLength"; "maxLength"; "email"; "phone"; "number"; "min";
   "max"; "pattern"; "password"; "confirmPassword"; "age"; "date"; "url"].

(** The guard [if (!value) return true] that opens every built-in
    predicate but [required]. *)
Definition guarded {World : Type} (p : Predicate World) : Prop :=
  forall value, ToBoolean value = false ->
  forall params formData w, p value params formData w = (Normal (VBool true), w).

(** Every registered predicate is pure. *)
Definition all_pure {World : Type} (v : FormValidator World) : Prop :=
  forall name p,
    JSMap.get name (validationRules v) = Some p -> pure_predicate p.

(** [no_char b s]: the character [b] is not in [s]. *)
Definition no_char (b : ascii) (s : string) : bool :=
  string_forallb (fun c => negb (Ascii.eqb c b)) s.

Definition sample_rules : list RuleReference :=
  [RuleName "required";
   RuleObject "minLength" (Some [("length", VNumber (Finite 3))]) None].

(** A new validator with a field [name] that is required and at least
    three characters long. *)
Definition sample_machine : Machine unit :=
  with_field "name" (ConfigObject (RulesArray sample_rules))
    (new_machine bare_runtime tt).

(** A new validator with a field whose only rule is not registered. *)
Definition lenient_machine : Machine unit :=
  with_field "nickname" (ConfigObject (RulesArray [RuleName "doesNotExist"]))
    (new_machine bare_runtime tt).

(** A new validator with a rule [cost] whose template has the placeholder
    [{price$}]. *)
Definition priced_machine : Machine unit :=
  with_rule "cost" (constant_predicate (VBool false)) "Costs {price$}"
    (new_machine bare_runtime tt).

(** A new validator with a rule [silent] whose template is empty. *)
Definition silent_machine : Machine unit :=
  with_rule "silent" (constant_predicate (VBool false)) EmptyString
    (new_machine bare_runtime tt).

From Stdlib Require Import Permutation.

(** ** Notions the further properties are stated with *)

(** The machine after [new FormValidator()] and a sequence of calls of
    the public methods. *)
Definition reached {World : Type} (rt : Runtime) (cs : list (Call World))
    (w : World) : Machine World :=
  after_calls rt cs (new_machine rt w).

(** The registry and the templates list the same rule names. *)
Definition same_rule_names {World : Type} (v : FormValidator World) : Prop :=
  JSMap.keys (validationRules v) = JSMap.keys (errorMessages v).

(** A failure of a field, as [getAllErrors] reports it. *)
Definition tag_error (fieldName : string) (error : RuleFailure) : FormError :=
  {| field := fieldName;
     error_rule := rule error;
     error_message := message error;
     error_params := params error |}.


(** The configuration [configureFields] leaves for a field: the last one
    the object gives it, if any. *)
Definition last_config (fieldName : string) (configs : JSObject FieldConfig)
    : option FieldConfig :=
  obj_get fieldName (rev configs).

Fixpoint distinct (l : list string) : bool :=
  match l with
  | [] => true
  | x :: r => negb (existsb (String.eqb x) r) && distinct r
  end.

(** The name a call adds to the registry, if any. *)
Definition newly_registered {World : Type} (c : Call World)
    (v : FormValidator World) : list string :=
  match c with
  | Call_addValidationRule name _ _ =>
      if registered v name then [] else [name]
  | _ => []
  end.

(** Two machines on which the evaluation of rules goes the same way. *)
Definition same_rules_and_world {World : Type} (m m' : Machine World) : Prop :=
  validationRules (self m) = validationRules (self m')
  /\ errorMessages (self m) = errorMessages (self m')
  /\ world m = world m'.

(** [results[name] = result] for a list of names and results, in order. *)
Definition set_results (entries : list (string * FieldValidationResult))
    (results : JSObject FieldValidationResult)
    : JSObject FieldValidationResult :=
  fold_left (fun results entry => obj_set (fst entry) (snd entry) results)
    entries results.


(** A result whose [isValid] says whether [errors] is empty. *)
Definition consistent_result (result : FieldValidationResult) : Prop :=
  isValid result = true <-> errors result = [].

(** ** The custom rules of [js/app.js]

    The predicates [ValidationApp.setupCustomValidations] registers under
    the names [creditCard] and [cpf].  Their regular expressions are
    character classes; they are written out.  A number of these predicates
    is [NaN] or an integer: [None] stands for [NaN]. *)

(** [s.replace(/[class]/g, '')]: the characters of the class are removed. *)
Fixpoint remove_chars (in_class : ascii -> bool) (s : string) : string :=
  match s with
  | EmptyString => EmptyString
  | String c r =>
      if in_class c then remove_chars in_class r
      else String c (remove_chars in_class r)
  end.

(** The class [[\s-]] *)
Definition is_space_or_dash (c : ascii) : bool :=
  is_white_space c || Ascii.eqb c "-".

(** The class [\D] *)
Definition is_not_digit (c : ascii) : bool := negb (is_digit c).

(** [/^\d+$/.test(s)] *)
Definition all_digits (s : string) : bool :=
  negb (String.eqb s EmptyString) && string_forallb is_digit s.

(** [/^(\d)\1{10}$/.test(s)]: eleven times the same digit. *)
Definition same_digit_eleven_times (s : string) : bool :=
  match s with
  | EmptyString => false
  | String c r =>
      is_digit c && Nat.eqb (String.length r) 10
      && string_forallb (Ascii.eqb c) r
  end.

(** [parseInt(s.charAt(i))]: the digit at index [i], [NaN] when there is
    no character there or it is no digit. *)
Definition parseInt_charAt (s : string) (i : nat) : option Z :=
  match String.get i s with
  | Some c =>
      if is_digit c then Some (Z.of_nat (nat_of_ascii c - 48)) else None
  | None => None
  end.

Definition num_add (a b : option Z) : option Z :=
  match a, b with
  | Some x, Some y => Some (x + y)%Z
  | _, _ => None
  end.

Definition num_sub (a b : option Z) : option Z :=
  match a, b with
  | Some x, Some y => Some (x - y)%Z
  | _, _ => None
  end.

Definition num_mul (a b : option Z) : option Z :=
  match a, b with
  | Some x, Some y => Some (x * y)%Z
  | _, _ => None
  end.

(** [a % b] for a divisor that is not zero *)
Definition num_rem (a : option Z) (b : Z) : option Z :=
  match a with
  | Some x => Some (Z.rem x b)
  | None => None
  end.

(** [a > b] *)
Definition num_gt (a : option Z) (b : Z) : bool :=
  match a with
  | Some x => (b <? x)%Z
  | None => false
  end.

(** [a === b] on numbers *)
Definition num_eq (a b : option Z) : bool :=
  match a, b with
  | Some x, Some y => Z.eqb x y
  | _, _ => false
  end.

(** The loop [for (let i = cardNumber.length - 1; i >= 0; i--)] of the
    Luhn algorithm; [n] is [i + 1]. *)
Fixpoint luhn_loop (cardNumber : string) (n : nat) (sum : option Z)
    (isEven : bool) : option Z :=
  match n with
  | O => sum
  | S i =>
      let digit := parseInt_charAt cardNumber i in
      let digit :=
        if isEven then
          let digit := num_mul digit (Some 2%Z) in
          if num_gt digit 9 then num_sub digit (Some 9%Z) else digit
        else digit in
      luhn_loop cardNumber i (num_add sum digit) (negb isEven)
  end.

Definition rule_creditCard (value : JSValue) (params : Params)
    (formData : FormData) : completion JSValue :=
  if negb (ToBoolean value) then Normal (VBool true)
  else
    match value with
    | VString s =>
        let cardNumber := remove_chars is_space_or_dash s in
        if negb (all_digits cardNumber) then Normal (VBool false)
        else
          let sum :=
            luhn_loop cardNumber (String.length cardNumber) (Some 0%Z) false in
          Normal (VBool (num_eq (num_rem sum 10) (Some 0%Z)))
    | _ => Throw TypeError
    end.

(** The loops [for (let i = 0; i < bound; i++) sum += parseInt(cpf.charAt(i))
    * (weight - i)]; [count] is [bound - i]. *)
Fixpoint cpf_loop (cpf : string) (weight : Z) (i count : nat)
    (sum : option Z) : option Z :=
  match count with
  | O => sum
  | S k =>
      cpf_loop cpf weight (S i) k
        (num_add sum
           (num_mul (parseInt_charAt cpf i) (Some (weight - Z.of_nat i)%Z)))
  end.

(** [let remainder = 11 - (sum % 11); if (remainder === 10 || remainder ===
    11) remainder = 0] *)
Definition cpf_remainder (sum : option Z) : option Z :=
  let remainder := num_sub (Some 11%Z) (num_rem sum 11) in
  if num_eq remainder (Some 10%Z) || num_eq remainder (Some 11%Z)
  then Some 0%Z else remainder.

Definition rule_cpf (value : JSValue) (params : Params)
    (formData : FormData) : completion JSValue :=
  if negb (ToBoolean value) then Normal (VBool true)
  else
    match value with
    | VString s =>
        let cpf := remove_chars is_not_digit s in
        if negb (Nat.eqb (String.length cpf) 11) then Normal (VBool false)
        else if same_digit_eleven_times cpf then Normal (VBool false)
        else
          let sum := cpf_loop cpf 10 0 9 (Some 0%Z) in
          let remainder := cpf_remainder sum in
          if negb (num_eq remainder (parseInt_charAt cpf 9))
          then Normal (VBool false)
          else
            let sum := cpf_loop cpf 11 0 10 (Some 0%Z) in
            let remainder := cpf_remainder sum in
            Normal (VBool (num_eq remainder (parseInt_charAt cpf 10)))
    | _ => Throw TypeError
    end.

(** The digits of a text, first to last. *)
Fixpoint digits_of (s : string) : list Z :=
  match s with
  | EmptyString => []
  | String c r => Z.of_nat (nat_of_ascii c - 48) :: digits_of r
  end.

(** What a digit adds to the Luhn sum. *)
Definition luhn_term (isEven : bool) (d : Z) : Z :=
  if isEven then (if (9 <? d * 2)%Z then d * 2 - 9 else d * 2)%Z else d.

(** The Luhn sum of digits given last to first. *)
Fixpoint luhn_sum (digits : list Z) (isEven : bool) : Z :=
  match digits with
  | [] => 0%Z
  | d :: r => (luhn_term isEven d + luhn_sum r (negb isEven))%Z
  end.

(** The tests of the rule [cpf] on the digits of the text. *)
Definition cpf_passes (cpf : string) : bool :=
  Nat.eqb (String.length cpf) 11
  && negb (same_digit_eleven_times cpf)
  && num_eq (cpf_remainder (cpf_loop cpf 10 0 9 (Some 0%Z)))
       (parseInt_charAt cpf 9)
  && num_eq (cpf_remainder (cpf_loop cpf 11 0 10 (Some 0%Z)))
       (parseInt_charAt cpf 10).

(** The calls that configure a field [name], required and at least three
    characters long, and a required field [email]. *)
Definition sample_calls : list (Call unit) :=
  [Call_configureField "name" (ConfigObject (RulesArray sample_rules));
   Call_configureField "email" (ConfigObject (RulesArray [RuleName "required"]))].

Definition sample_formData : FormData :=
  [("name", VString "ab"); ("email", VString "a@b.c")].



(** ** The rule [nitValido] of [formulario-empresarial.js] *)

(** [/^\d{8,15}$/.test(s)] *)
Definition eight_to_fifteen_digits (s : string) : bool :=
  (8 <=? String.length s)%nat && (String.length s <=? 15)%nat
  && string_forallb is_digit s.

Definition rule_nitValido (value : JSValue) (params : Params)
    (formData : FormData) : completion JSValue :=
  if negb (ToBoolean value) then Normal (VBool true)
  else
    match value with
    | VString s =>
        let nit := remove_chars is_not_digit s in
        if (String.length nit <? 8)%nat then Normal (VBool false)
        else Normal (VBool (eight_to_fifteen_digits nit))
    | _ => Throw TypeError
    end.

(** The number of digits in a text. *)
Fixpoint count_digits (s : string) : nat :=
  match s with
  | EmptyString => 0
  | String c r => (if is_digit c then 1 else 0) + count_digits r
  end.

(** * Properties *)

(** ** Maps *)

Lemma JSMap_get_set_same {V : Type} (key : string) (v : V) (m : JSMap.t V) :
  JSMap.get key (JSMap.set key v m) = Some v.
Proof.
  induction m as [|[k w] r IH]; simpl.
  - now rewrite String.eqb_refl.
  - destruct (String.eqb k key) eqn:E; simpl; rewrite E; auto.
Qed.

Lemma JSMap_get_set_other {V : Type} (key key' : string) (v : V)
    (m : JSMap.t V) :
  key <> key' -> JSMap.get key' (JSMap.set key v m) = JSMap.get key' m.
Proof.
  intros Hne. induction m as [|[k w] r IH]; simpl.
  - destruct (String.eqb key key') eqn:E; auto.
    apply String.eqb_eq in E. contradiction.
  - destruct (String.eqb k key) eqn:E; simpl.
    + apply String.eqb_eq in E. subst k.
      destruct (String.eqb key key') eqn:E'; auto.
      apply String.eqb_eq in E'. contradiction.
    + destruct (String.eqb k key'); auto.
Qed.

Lemma JSMap_set_set {V : Type} (key : string) (v1 v2 : V) (m : JSMap.t V) :
  JSMap.set key v2 (JSMap.set key v1 m) = JSMap.set key v2 m.
Proof.
  induction m as [|[k w] r IH]; simpl.
  - now rewrite String.eqb_refl.
  - destruct (String.eqb k key) eqn:E; simpl; rewrite E; auto.
    now rewrite IH.
Qed.

(** ** Machines *)

Lemma Machine_ext {World : Type} (m m' : Machine World) :
  self m = self m' -> console m = console m' -> world m = world m' ->
  invocations m = invocations m' -> m = m'.
Proof.
  destruct m, m'; simpl; intros; subst; reflexivity.
Qed.

Section Frame.

Context {World : Type}.
Variable rt : Runtime.

Local Open Scope js_scope.

Lemma keeps_this_ret {A : Type} (a : A) : keeps_this World (@ret World A a).
Proof. intro m; reflexivity. Qed.

Lemma keeps_this_throw {A : Type} (e : JSError) :
  keeps_this World (@throw World A e).
Proof. intro m; reflexivity. Qed.

Lemma keeps_this_lift {A : Type} (c : completion A) :
  keeps_this World (@lift_completion World A c).
Proof. intro m; reflexivity. Qed.

Lemma keeps_this_get : keeps_this World (@get_this World).
Proof. intro m; reflexivity. Qed.

Lemma keeps_this_warn (line : string) :
  keeps_this World (@console_warn World line).
Proof. intro m; reflexivity. Qed.

Lemma keeps_this_call name (p : Predicate World) v ps fd :
  keeps_this World (call_predicate name p v ps fd).
Proof.
  intro m. unfold call_predicate.
  destruct (p v ps fd (world m)); reflexivity.
Qed.

Lemma keeps_this_bind {A B : Type} (c : M World A) (k : A -> M World B) :
  keeps_this World c -> (forall a, keeps_this World (k a)) ->
  keeps_this World (bind c k).
Proof.
  intros Hc Hk m. unfold bind.
  specialize (Hc m). destruct (c m) as [[a|e] m']; simpl in *.
  - rewrite Hk. exact Hc.
  - exact Hc.
Qed.

Lemma keeps_this_forEach {A S : Type} (l : list A)
    (callback : A -> S -> M World S) :
  (forall x s, keeps_this World (callback x s)) ->
  forall s, keeps_this World (forEach l callback s).
Proof.
  intro H. induction l as [|x r IH]; intro s; simpl.
  - apply keeps_this_ret.
  - apply keeps_this_bind; auto.
Qed.

Ltac frame :=
  repeat (cbv zeta;
    lazymatch goal with
    | |- keeps_this _ (bind _ _) => apply keeps_this_bind; [|intro]
    | |- keeps_this _ (forEach _ _ _) => apply keeps_this_forEach; intros
    | |- keeps_this _ (ret _) => apply keeps_this_ret
    | |- keeps_this _ (throw _) => apply keeps_this_throw
    | |- keeps_this _ (lift_completion _) => apply keeps_this_lift
    | |- keeps_this _ get_this => apply keeps_this_get
    | |- keeps_this _ (console_warn _) => apply keeps_this_warn
    | |- keeps_this _ (call_predicate _ _ _ _ _) => apply keeps_this_call
    | |- keeps_this _ (match ?x with _ => _ end) => destruct x
    end).

Lemma keeps_this_formatErrorMessage ruleName params :
  keeps_this World (formatErrorMessage rt ruleName params).
Proof. unfold formatErrorMessage. frame. unfold replace_entry. frame. Qed.

Lemma keeps_this_validate_rule value formData r errors :
  keeps_this World (validate_rule rt value formData r errors).
Proof.
  unfold validate_rule. frame; apply keeps_this_formatErrorMessage.
Qed.

Lemma keeps_this_validateField fieldName value formData :
  keeps_this World (validateField rt fieldName value formData).
Proof.
  unfold validateField. frame. apply keeps_this_validate_rule.
Qed.

Lemma keeps_this_validateForm formData :
  keeps_this World (validateForm rt formData).
Proof.
  unfold validateForm. frame. unfold validate_entry. frame.
  apply keeps_this_validateField.
Qed.

Lemma keeps_this_getAvailableRules :
  keeps_this World (@getAvailableRules World).
Proof. unfold getAvailableRules. frame. Qed.

End Frame.

(** ** What one rule evaluation does *)

Section Engine.

Context {World : Type}.
Variable rt : Runtime.

Local Open Scope js_scope.

Lemma has_value_spec (v : JSValue) :
  negb (strict_equal v VNull) && negb (strict_equal v VUndefined)
  && negb (strict_equal v (VString EmptyString)) = has_value v.
Proof.
  destruct v as [| |b|n|s]; try reflexivity.
  destruct n; reflexivity.
Qed.

Lemma replace_entry_eq (entry : string * JSValue) (message : string)
    (m : Machine World) :
  replace_entry rt entry message m
  = (if has_value (snd entry)
     then replace_placeholder rt (fst entry) (snd entry) message
     else Normal message, m).
Proof.
  unfold replace_entry. cbv zeta. rewrite has_value_spec.
  destruct (has_value (snd entry)); reflexivity.
Qed.

Lemma forEach_replace_entry (entries : list (string * JSValue))
    (message : string) (m : Machine World) :
  forEach entries (replace_entry rt) message m
  = (format_steps rt entries message, m).
Proof.
  revert message. induction entries as [|entry r IH]; intro message.
  - reflexivity.
  - simpl. unfold bind. rewrite replace_entry_eq.
    destruct (has_value (snd entry)).
    + destruct (replace_placeholder rt (fst entry) (snd entry) message); simpl.
      * apply IH.
      * reflexivity.
    + apply IH.
Qed.

Lemma formatErrorMessage_eq ruleName params (m : Machine World) :
  formatErrorMessage rt ruleName params m
  = (match params with
     | None => Normal (template_of (errorMessages (self m)) ruleName)
     | Some ps =>
         format_steps rt ps (template_of (errorMessages (self m)) ruleName)
     end, m).
Proof.
  unfold formatErrorMessage, bind, get_this, template_of.
  destruct params as [ps|].
  - apply forEach_replace_entry.
  - reflexivity.
Qed.

Lemma validate_rule_unknown value formData r errors (m : Machine World) :
  JSMap.get (ruleName_of r) (validationRules (self m)) = None ->
  validate_rule rt value formData r errors m
  = (Normal errors, snd (console_warn (warning_line (ruleName_of r)) m)).
Proof.
  intro H. unfold validate_rule, bind, get_this. cbv zeta. rewrite H.
  reflexivity.
Qed.

Lemma validate_rule_known value formData r errors (m : Machine World) p :
  JSMap.get (ruleName_of r) (validationRules (self m)) = Some p ->
  validate_rule rt value formData r errors m
  = (match fst (p value (ruleParams_of r) formData (world m)) with
     | Throw e => Throw e
     | Normal result =>
         if ToBoolean result then Normal errors
         else
           match failure_message rt (errorMessages (self m)) r with
           | Normal text =>
               Normal (errors ++ [{| rule := ruleName_of r; message := text;
                                     params := ruleParams_of r |}])%list
           | Throw e => Throw e
           end
     end,
     snd (call_predicate (ruleName_of r) p value (ruleParams_of r) formData m)).
Proof.
  intro H. unfold validate_rule, bind, get_this. cbv zeta. rewrite H.
  unfold call_predicate.
  destruct (p value (ruleParams_of r) formData (world m)) as [[result|e] w];
    simpl; [|reflexivity].
  destruct (ToBoolean result); simpl; [reflexivity|].
  unfold failure_message.
  destruct (customMessage_of r) as [text|].
  - destruct (String.eqb text EmptyString).
    + rewrite formatErrorMessage_eq. simpl.
      destruct (format_steps _ _ _); reflexivity.
    + reflexivity.
  - rewrite formatErrorMessage_eq. simpl.
    destruct (format_steps _ _ _); reflexivity.
Qed.

(** The state a rule evaluation leaves: the validator object is untouched,
    and one line or one invocation is logged. *)
Lemma call_predicate_machine name (p : Predicate World) v ps fd m :
  let m' := snd (call_predicate name p v ps fd m) in
  self m' = self m /\ console m' = console m
  /\ world m' = snd (p v ps fd (world m))
  /\ invocations m'
     = (invocations m ++
        [{| called_rule := name; called_value := v; called_params := ps;
            called_formData := fd;
            returned := fst (p v ps fd (world m)) |}])%list.
Proof.
  unfold call_predicate. destruct (p v ps fd (world m)); simpl. auto.
Qed.

End Engine.

(** ** The registry and the configuration store under the methods *)

Section Stores.

Context {World : Type}.
Variable rt : Runtime.

Local Open Scope js_scope.

Lemma keeps_this_registry {A : Type} (c : M World A) :
  keeps_this World c -> keeps_registry World c.
Proof. intros H m. rewrite H. auto. Qed.

Lemma keeps_registry_configureField fieldName config :
  keeps_registry World (@configureField World fieldName config).
Proof. intro m. split; reflexivity. Qed.

Lemma keeps_registry_configureFields configs :
  keeps_registry World (@configureFields World configs).
Proof.
  unfold configureFields, Object_entries.
  induction configs as [|entry r IH]; intro m.
  - split; reflexivity.
  - simpl. unfold bind.
    destruct (configureField (fst entry) (snd entry) m) as [[[]|e] m'] eqn:E.
    + destruct (IH m') as [H1 H2]. rewrite H1, H2.
      pose proof (keeps_registry_configureField (fst entry) (snd entry) m) as K.
      rewrite E in K. exact K.
    + discriminate E.
Qed.

Lemma keeps_registry_resetField fieldName :
  keeps_registry World (@resetField World fieldName).
Proof. intro m. split; reflexivity. Qed.

Lemma keeps_registry_clearAll : keeps_registry World (@clearAll World).
Proof. intro m. split; reflexivity. Qed.

Lemma addValidationRule_self name (p : Predicate World) message m :
  addValidationRule name p message m
  = (Normal tt,
     {| self :=
          {| validationRules := JSMap.set name p (validationRules (self m));
             errorMessages := JSMap.set name message (errorMessages (self m));
             fieldConfigs := fieldConfigs (self m) |};
        console := console m;
        world := world m;
        invocations := invocations m |}).
Proof. reflexivity. Qed.

Lemma configureField_self fieldName config (m : Machine World) :
  configureField fieldName config m
  = (Normal tt,
     {| self :=
          {| validationRules := validationRules (self m);
             errorMessages := errorMessages (self m);
             fieldConfigs := JSMap.set fieldName config (fieldConfigs (self m)) |};
        console := console m;
        world := world m;
        invocations := invocations m |}).
Proof. reflexivity. Qed.

(** A call that does not register [name] leaves its predicate and its
    template where they are. *)
Lemma after_call_keeps_rule name (c : Call World) (m : Machine World) :
  registers name c = false ->
  JSMap.get name (validationRules (self (after_call rt c m)))
  = JSMap.get name (validationRules (self m))
  /\ JSMap.get name (errorMessages (self (after_call rt c m)))
     = JSMap.get name (errorMessages (self m)).
Proof.
  intro H. destruct c; simpl in H; unfold after_call.
  - rewrite addValidationRule_self. simpl.
    assert (name0 <> name) as Hne.
    { intro E. subst. rewrite String.eqb_refl in H. discriminate. }
    split; apply JSMap_get_set_other; exact Hne.
  - split; reflexivity.
  - destruct (keeps_registry_configureFields configs m) as [H1 H2].
    rewrite H1, H2. auto.
  - rewrite keeps_this_validateField. auto.
  - rewrite keeps_this_validateForm. auto.
  - rewrite keeps_this_formatErrorMessage. auto.
  - split; reflexivity.
  - split; reflexivity.
  - split; reflexivity.
Qed.

Lemma after_calls_keep_rule name (cs : list (Call World)) (m : Machine World) :
  forallb (fun c => negb (registers name c)) cs = true ->
  JSMap.get name (validationRules (self (after_calls rt cs m)))
  = JSMap.get name (validationRules (self m))
  /\ JSMap.get name (errorMessages (self (after_calls rt cs m)))
     = JSMap.get name (errorMessages (self m)).
Proof.
  revert m. induction cs as [|c r IH]; intros m H; simpl in *.
  - auto.
  - apply andb_true_iff in H. destruct H as [Hc Hr].
    apply negb_true_iff in Hc.
    destruct (IH (after_call rt c m) Hr) as [H1 H2].
    destruct (after_call_keeps_rule name c m Hc) as [H3 H4].
    rewrite H1, H2, H3, H4. auto.
Qed.

Lemma new_machine_fieldConfigs (w : World) :
  fieldConfigs (self (new_machine rt w)) = JSMap.empty.
Proof. reflexivity. Qed.

Lemma new_machine_unregistered (w : World) :
  JSMap.get "custom" (errorMessages (self (new_machine rt w))) = None.
Proof. reflexivity. Qed.

Lemma with_field_fieldConfigs fieldName config (m : Machine World) :
  fieldConfigs (self (with_field fieldName config m))
  = JSMap.set fieldName config (fieldConfigs (self m)).
Proof. reflexivity. Qed.

(** C10: [validateField], [validateForm], [formatErrorMessage] and
    [getAvailableRules] leave the rule registry (predicates and message
    templates) and the field configuration store exactly as they were,
    whether they return or throw; among the methods of the public surface
    the ones that can change them are [addValidationRule],
    [configureField], [configureFields], [resetField] and [clearAll]. *)
Theorem reading_methods_keep_the_state (w : World) :
  (forall (c : Call World) (m : Machine World),
      writes_state (method_of c) = false ->
      self (after_call rt c m) = self m)
  /\ (forall me : Method,
         writes_state me = true ->
         exists (c : Call World) (m : Machine World),
           method_of c = me /\ self (after_call rt c m) <> self m).
Proof.
  split.
  - intros c m H. destruct c; simpl in H; try discriminate H;
      unfold after_call.
    + apply keeps_this_validateField.
    + apply keeps_this_validateForm.
    + apply keeps_this_formatErrorMessage.
    + apply keeps_this_getAvailableRules.
  - intros me H.
    pose (cfg := ConfigObject (RulesArray [])).
    destruct me; simpl in H; try discriminate H.
    + exists (Call_addValidationRule "custom"
                (constant_predicate (VBool true)) "Custom"),
        (new_machine rt w).
      split; [reflexivity|]. unfold after_call. intro E.
      apply (f_equal (fun v => JSMap.get "custom" (errorMessages v))) in E.
      rewrite new_machine_unregistered, addValidationRule_self in E.
      cbn [snd self errorMessages] in E.
      rewrite JSMap_get_set_same in E. discriminate E.
    + exists (Call_configureField "f" cfg), (new_machine rt w).
      split; [reflexivity|]. unfold after_call. intro E.
      apply (f_equal (@fieldConfigs World)) in E.
      rewrite configureField_self, new_machine_fieldConfigs in E.
      discriminate E.
    + exists (Call_configureFields [("f", cfg)]), (new_machine rt w).
      split; [reflexivity|]. unfold after_call. intro E.
      apply (f_equal (@fieldConfigs World)) in E.
      rewrite new_machine_fieldConfigs in E.
      change (snd (configureFields [("f", cfg)] (new_machine rt w)))
        with (with_field "f" cfg (new_machine rt w)) in E.
      rewrite with_field_fieldConfigs, new_machine_fieldConfigs in E.
      discriminate E.
    + exists (Call_resetField "f"), (with_field "f" cfg (new_machine rt w)).
      split; [reflexivity|]. unfold after_call. intro E.
      apply (f_equal (@fieldConfigs World)) in E.
      rewrite with_field_fieldConfigs, new_machine_fieldConfigs in E.
      change (fieldConfigs
                (self (snd (resetField "f" (with_field "f" cfg (new_machine rt w))))))
        with (JSMap.delete "f"
                (fieldConfigs (self (with_field "f" cfg (new_machine rt w)))))
        in E.
      rewrite with_field_fieldConfigs, new_machine_fieldConfigs in E.
      discriminate E.
    + exists Call_clearAll, (with_field "f" cfg (new_machine rt w)).
      split; [reflexivity|]. unfold after_call. intro E.
      apply (f_equal (@fieldConfigs World)) in E.
      rewrite with_field_fieldConfigs, new_machine_fieldConfigs in E.
      discriminate E.
Qed.

End Stores.

(** ** Registration, configuration and exceptions *)

Section Registration.

Context {World : Type}.
Variable rt : Runtime.

Local Open Scope js_scope.

Lemma with_rule_twice name (p1 p2 : Predicate World) t1 t2 m :
  with_rule name p2 t2 (with_rule name p1 t1 m) = with_rule name p2 t2 m.
Proof.
  unfold with_rule. rewrite !addValidationRule_self. simpl.
  rewrite !JSMap_set_set. reflexivity.
Qed.

(** C7: after two calls of [addValidationRule] with the same name the
    validator is the one a single call with the second predicate and the
    second template gives (last registration wins); and as long as the
    name is not registered again, whatever other methods are called, the
    registry holds the second predicate and the second template for it,
    every evaluation of a reference to that rule in [validateField] invokes
    the second predicate, and [formatErrorMessage] starts from the second
    template. *)
Theorem last_registration_wins name (p1 p2 : Predicate World) t1 t2
    (m : Machine World) :
  with_rule name p2 t2 (with_rule name p1 t1 m) = with_rule name p2 t2 m
  /\ forall cs : list (Call World),
       forallb (fun c => negb (registers name c)) cs = true ->
       let m' := after_calls rt cs (with_rule name p2 t2 (with_rule name p1 t1 m)) in
       JSMap.get name (validationRules (self m')) = Some p2
       /\ JSMap.get name (errorMessages (self m')) = Some t2
       /\ (forall value formData r errors,
             ruleName_of r = name ->
             invocations (snd (validate_rule rt value formData r errors m'))
             = (invocations m'
                ++ [invocation_of value formData r p2 (world m')])%list)
       /\ (forall params,
             formatErrorMessage rt name params m'
             = (match params with
                | None =>
                    Normal (if String.eqb t2 EmptyString then "Invalid value" else t2)
                | Some ps =>
                    format_steps rt ps
                      (if String.eqb t2 EmptyString then "Invalid value" else t2)
                end, m')).
Proof.
  split; [apply with_rule_twice|].
  intros cs Hcs m'.
  destruct (after_calls_keep_rule rt name cs
              (with_rule name p2 t2 (with_rule name p1 t1 m)) Hcs) as [H1 H2].
  fold m' in H1, H2.
  assert (JSMap.get name (validationRules (self m')) = Some p2) as G1.
  { rewrite H1. unfold with_rule at 1. rewrite addValidationRule_self. simpl.
    apply JSMap_get_set_same. }
  assert (JSMap.get name (errorMessages (self m')) = Some t2) as G2.
  { rewrite H2. unfold with_rule at 1. rewrite addValidationRule_self. simpl.
    apply JSMap_get_set_same. }
  repeat split; auto.
  - intros value formData r errors Hr. subst name.
    rewrite (validate_rule_known rt value formData r errors m' G1). simpl.
    destruct (call_predicate_machine (ruleName_of r) p2 value
                (ruleParams_of r) formData m') as (_ & _ & _ & Hi).
    exact Hi.
  - intro params. rewrite formatErrorMessage_eq.
    unfold template_of. rewrite G2. reflexivity.
Qed.

(** C4, as the code has it: [configureField] checks nothing.  It returns
    normally for every configuration and stores it as given; a
    configuration whose [rules] is not a list is met only later, when
    [validateField] reaches [config.rules.forEach] and throws a
    [TypeError]. *)
Theorem configureField_accepts_every_config :
  (forall fieldName config (m : Machine World),
      fst (configureField fieldName config m) = Normal tt
      /\ JSMap.get fieldName
           (fieldConfigs (self (snd (configureField fieldName config m))))
         = Some config)
  /\ (forall fieldName v value formData (m : Machine World),
         validateField rt fieldName value formData
           (with_field fieldName (ConfigObject (RulesOther v)) m)
         = (Throw TypeError,
            with_field fieldName (ConfigObject (RulesOther v)) m)).
Proof.
  split.
  - intros. rewrite configureField_self. simpl. split; [reflexivity|].
    apply JSMap_get_set_same.
  - intros. unfold with_field. rewrite configureField_self. simpl.
    unfold validateField, bind, get_this. simpl.
    rewrite JSMap_get_set_same. reflexivity.
Qed.

Lemma forEach_app {A S : Type} (l1 l2 : list A)
    (callback : A -> S -> M World S) (s : S) (m : Machine World) :
  forEach (l1 ++ l2) callback s m
  = match forEach l1 callback s m with
    | (Normal s', m') => forEach l2 callback s' m'
    | (Throw e, m') => (Throw e, m')
    end.
Proof.
  revert s m. induction l1 as [|x r IH]; intros s m; simpl.
  - reflexivity.
  - unfold bind. destruct (callback x s m) as [[s'|e] m'].
    + apply IH.
    + reflexivity.
Qed.

Lemma forEach_validate_rule_self value formData rules errors
    (m : Machine World) :
  self (snd (forEach rules (validate_rule rt value formData) errors m))
  = self m.
Proof.
  apply keeps_this_forEach. intros. apply keeps_this_validate_rule.
Qed.

(** C1, as the code has it: there is no handler around the call of a
    predicate.  When the rules before [r] have been evaluated and the
    predicate of [r] throws, [validateField] throws that same exception:
    it returns no result, the failures collected so far are dropped, and
    the rules after [r] are not evaluated (the invocation of [r] is the
    last one logged). *)
Theorem predicate_exception_propagates fieldName value formData
    (rules_before rules_after : list RuleReference) (r : RuleReference)
    (p : Predicate World) (e : JSError) (errors : list RuleFailure)
    (m m1 : Machine World) :
  let fd := formData_default formData in
  JSMap.get fieldName (fieldConfigs (self m))
  = Some (ConfigObject (RulesArray (rules_before ++ r :: rules_after))) ->
  forEach rules_before (validate_rule rt value fd) [] m = (Normal errors, m1) ->
  JSMap.get (ruleName_of r) (validationRules (self m)) = Some p ->
  fst (p value (ruleParams_of r) fd (world m1)) = Throw e ->
  exists m',
    validateField rt fieldName value formData m = (Throw e, m')
    /\ invocations m'
       = (invocations m1 ++ [invocation_of value fd r p (world m1)])%list
    /\ console m' = console m1
    /\ self m' = self m.
Proof.
  intros fd. subst fd. unfold validateField. cbv zeta.
  generalize (formData_default formData) as fd.
  intros fd Hcfg Hbefore Hp He.
  exists (snd (call_predicate (ruleName_of r) p value (ruleParams_of r) fd m1)).
  assert (self m1 = self m) as Hself.
  { pose proof (forEach_validate_rule_self value fd rules_before [] m) as K.
    rewrite Hbefore in K. exact K. }
  destruct (call_predicate_machine (ruleName_of r) p value (ruleParams_of r)
              fd m1) as (Hs & Hc & _ & Hi).
  repeat split.
  - unfold bind at 1, get_this. rewrite Hcfg.
    unfold bind. rewrite forEach_app, Hbefore. simpl.
    unfold bind at 1.
    rewrite (validate_rule_known rt value fd r errors m1 (p := p))
      by (rewrite Hself; exact Hp).
    rewrite He. reflexivity.
  - exact Hi.
  - exact Hc.
  - rewrite Hs. exact Hself.
Qed.

End Registration.

(** ** Evaluating the rules of a field *)

Section Evaluation.

Context {World : Type}.
Variable rt : Runtime.

Local Open Scope js_scope.

Lemma registered_false (v : FormValidator World) name :
  registered v name = false <-> JSMap.get name (validationRules v) = None.
Proof.
  unfold registered. destruct (JSMap.get name (validationRules v)); split;
    intro H; congruence.
Qed.

Lemma registered_true (v : FormValidator World) name :
  registered v name = true
  <-> exists p, JSMap.get name (validationRules v) = Some p.
Proof.
  unfold registered. destruct (JSMap.get name (validationRules v)) as [p|]; split.
  - intros _. now exists p.
  - reflexivity.
  - discriminate.
  - intros [p H]. discriminate H.
Qed.

Lemma console_warn_machine line (m : Machine World) :
  let m' := snd (console_warn line m) in
  self m' = self m /\ console m' = (console m ++ [line])%list
  /\ world m' = world m /\ invocations m' = invocations m.
Proof. simpl. auto. Qed.

Lemma format_steps_plain (ps : Params) (message : string) :
  plain_params ps = true -> exists text, format_steps rt ps message = Normal text.
Proof.
  revert message. induction ps as [|[key value] r IH]; intros message H.
  - now exists message.
  - simpl in *. apply andb_true_iff in H. destruct H as [Hk Hr].
    destruct (has_value value).
    + unfold replace_placeholder. rewrite Hk. simpl. apply IH, Hr.
    + apply IH, Hr.
Qed.


(** When the loop over the rules completes, the console has gained one
    line per reference to an unknown rule, in order, and every failure
    collected names a registered rule. *)
Lemma forEach_rules_warnings value fd (rules : list RuleReference) :
  forall errors (m : Machine World) errors' m',
    forEach rules (validate_rule rt value fd) errors m = (Normal errors', m') ->
    console m'
    = (console m
       ++ map warning_line
            (filter (fun name => negb (registered (self m) name))
                    (map ruleName_of rules)))%list
    /\ forall f, In f errors' ->
         In f errors
         \/ (registered (self m) (rule f) = true
             /\ In (rule f) (map ruleName_of rules)).
Proof.
  induction rules as [|r rest IH]; intros errors m errors' m' H.
  - simpl in H. injection H as <- <-. simpl. rewrite app_nil_r. auto.
  - simpl in H. unfold bind in H.
    destruct (JSMap.get (ruleName_of r) (validationRules (self m)))
      as [p|] eqn:G.
    + rewrite (validate_rule_known rt value fd r errors m G) in H.
      destruct (call_predicate_machine (ruleName_of r) p value
                  (ruleParams_of r) fd m) as (Hs & Hc & _ & _).
      set (m1 := snd (call_predicate (ruleName_of r) p value
                        (ruleParams_of r) fd m)) in *.
      assert (registered (self m) (ruleName_of r) = true) as Hreg
        by (apply registered_true; now exists p).
      simpl. rewrite Hreg. simpl.
      destruct (fst (p value (ruleParams_of r) fd (world m)))
        as [result|e]; [|discriminate H].
      destruct (ToBoolean result).
      * apply IH in H. destruct H as [H1 H2]. rewrite Hs, Hc in H1.
        split; [exact H1|]. intros f Hf.
        destruct (H2 f Hf) as [|[? ?]]; [auto|]. rewrite Hs in *. auto.
      * destruct (failure_message rt (errorMessages (self m)) r)
          as [text|e]; [|discriminate H].
        apply IH in H. destruct H as [H1 H2]. rewrite Hs, Hc in H1.
        split; [exact H1|]. intros f Hf.
        destruct (H2 f Hf) as [Hin|[? ?]].
        -- apply in_app_or in Hin. destruct Hin as [|[<-|[]]]; auto.
        -- rewrite Hs in *. auto.
    + rewrite (validate_rule_unknown rt value fd r errors m G) in H.
      destruct (console_warn_machine (warning_line (ruleName_of r)) m)
        as (Hs & Hc & _ & _).
      set (m1 := snd (console_warn (warning_line (ruleName_of r)) m)) in *.
      assert (registered (self m) (ruleName_of r) = false) as Hreg
        by (apply registered_false; exact G).
      simpl. rewrite Hreg. simpl.
      apply IH in H. destruct H as [H1 H2]. rewrite Hs, Hc in H1.
      rewrite <- app_assoc in H1. split; [exact H1|].
      intros f Hf. destruct (H2 f Hf) as [|[? ?]]; [auto|].
      rewrite Hs in *. auto.
Qed.

(** When no reference names a registered rule, the loop only warns. *)
Lemma forEach_rules_all_unknown value fd (rules : list RuleReference) :
  forall errors (m : Machine World),
    forallb (fun r => negb (registered (self m) (ruleName_of r))) rules = true ->
    exists m',
      forEach rules (validate_rule rt value fd) errors m = (Normal errors, m')
      /\ self m' = self m
      /\ console m'
         = (console m ++ map warning_line (map ruleName_of rules))%list
      /\ world m' = world m
      /\ invocations m' = invocations m.
Proof.
  induction rules as [|r rest IH]; intros errors m H.
  - exists m. simpl. rewrite app_nil_r. auto.
  - simpl in H. apply andb_true_iff in H. destruct H as [Hr Hrest].
    apply negb_true_iff, registered_false in Hr.
    destruct (console_warn_machine (warning_line (ruleName_of r)) m)
      as (Hs & Hc & Hw & Hi).
    set (m1 := snd (console_warn (warning_line (ruleName_of r)) m)) in *.
    destruct (IH errors m1) as (m' & E & Es & Ec & Ew & Ei).
    { rewrite Hs. exact Hrest. }
    exists m'. simpl. unfold bind.
    rewrite (validate_rule_unknown rt value fd r errors m Hr). fold m1.
    rewrite E, Es, Ec, Ew, Ei, Hs, Hc, Hw, Hi, <- app_assoc. auto.
Qed.

End Evaluation.

Section FieldResults.

Context {World : Type}.
Variable rt : Runtime.

Local Open Scope js_scope.

(** C3: a reference to a rule name absent from the registry is skipped:
    the evaluation of that reference returns normally with the failures
    collected so far unchanged, invokes nothing and writes the line
    [Validation rule "name" not found] with [console.warn]; so whenever
    [validateField] returns a result, no failure in it names an unknown
    rule and the console has gained the warning of every unknown reference,
    in order; and a field configured with unknown rule names only returns
    [{isValid: true, errors: []}]. *)
Theorem unknown_rule_is_skipped_with_a_warning fieldName value formData
    (rules : list RuleReference) (m : Machine World) :
  JSMap.get fieldName (fieldConfigs (self m))
  = Some (ConfigObject (RulesArray rules)) ->
  (forall r errors (m0 : Machine World),
      registered (self m0) (ruleName_of r) = false ->
      validate_rule rt value (formData_default formData) r errors m0
      = (Normal errors, snd (console_warn (warning_line (ruleName_of r)) m0)))
  /\ (forall result m',
         validateField rt fieldName value formData m = (Normal result, m') ->
         (forall f, In f (errors result) -> registered (self m) (rule f) = true)
         /\ console m'
            = (console m
               ++ map warning_line
                    (filter (fun name => negb (registered (self m) name))
                            (map ruleName_of rules)))%list)
  /\ (forallb (fun r => negb (registered (self m) (ruleName_of r))) rules = true ->
      exists m',
        validateField rt fieldName value formData m
        = (Normal {| isValid := true; errors := [] |}, m')
        /\ console m'
           = (console m ++ map warning_line (map ruleName_of rules))%list
        /\ invocations m' = invocations m
        /\ self m' = self m).
Proof.
  intro Hcfg. split; [|split].
  - intros r errors m0 H. apply validate_rule_unknown.
    apply registered_false, H.
  - intros result m' H. unfold validateField in H. cbv zeta in H.
    unfold bind at 1, get_this in H. rewrite Hcfg in H. unfold bind in H.
    destruct (forEach rules
                (validate_rule rt value (formData_default formData)) [] m)
      as [[errs|e] m1] eqn:E; [|discriminate H].
    unfold ret in H. injection H as <- <-. simpl.
    destruct (forEach_rules_warnings rt value _ rules [] m E) as [H1 H2].
    split; [|exact H1].
    intros f Hf. destruct (H2 f Hf) as [[]|[? _]]. assumption.
  - intro Hall. unfold validateField. cbv zeta.
    unfold bind at 1, get_this. rewrite Hcfg. unfold bind.
    destruct (forEach_rules_all_unknown rt value (formData_default formData)
                rules [] m Hall) as (m' & E & Es & Ec & _ & Ei).
    exists m'. rewrite E. unfold ret. simpl. auto.
Qed.



End FieldResults.

(** ** The built-in rules *)

Section Builtins.

Context {World : Type}.
Variable rt : Runtime.

Lemma JSMap_get_In {V : Type} (key : string) (v : V) (m : JSMap.t V) :
  JSMap.get key m = Some v -> In (key, v) m.
Proof.
  induction m as [|[k w] r IH]; simpl; intro H.
  - discriminate H.
  - destruct (String.eqb k key) eqn:E.
    + apply String.eqb_eq in E. injection H as ->. subst. now left.
    + right. auto.
Qed.

Lemma constructor_registry (m : Machine World) :
  validationRules (self (snd (constructor rt m)))
  = [("required", lift_predicate rule_required);
     ("minLength", lift_predicate (rule_minLength rt));
     ("maxLength", lift_predicate (rule_maxLength rt));
     ("email", lift_predicate (rule_email rt));
     ("phone", lift_predicate (rule_phone rt));
     ("number", lift_predicate (rule_number rt));
     ("min", lift_predicate (rule_min rt));
     ("max", lift_predicate (rule_max rt));
     ("pattern", lift_predicate (rule_pattern rt));
     ("password", lift_predicate (rule_password rt));
     ("confirmPassword", lift_predicate rule_confirmPassword);
     ("age", lift_predicate (rule_age rt));
     ("date", lift_predicate (rule_date rt));
     ("url", lift_predicate (rule_url rt))].
Proof. reflexivity. Qed.

Ltac by_guard :=
  intros value Hfalsy params formData w; unfold lift_predicate;
  match goal with
  | |- (?f _ _ _, _) = _ => unfold f
  | |- (?f _ _ _ _, _) = _ => unfold f
  end; rewrite Hfalsy; reflexivity.

Lemma builtin_guards (m : Machine World) name p :
  JSMap.get name (validationRules (self (snd (constructor rt m)))) = Some p ->
  name <> "required" -> guarded p.
Proof.
  intros H Hname. apply JSMap_get_In in H. rewrite constructor_registry in H.
  simpl in H.
  repeat (destruct H as [H|H];
          [injection H as <- <-; try (exfalso; apply Hname; reflexivity);
           try by_guard|]).
  contradiction.
Qed.

Lemma rule_required_eq value params formData :
  rule_required value params formData
  = Normal (VBool (present value
                   && negb (String.eqb (trim (ToString value)) EmptyString))).
Proof.
  unfold rule_required.
  destruct value as [| |b|n|s]; try reflexivity.
  destruct n; reflexivity.
Qed.

End Builtins.

Section BuiltinClaims.

Context {World : Type}.
Variable rt : Runtime.

Lemma builtin_registered (m : Machine World) name :
  In name builtin_names ->
  exists p,
    JSMap.get name (validationRules (self (snd (constructor rt m)))) = Some p.
Proof.
  intro H. rewrite constructor_registry. simpl in H.
  repeat (destruct H as [<-|H]; [eexists; reflexivity|]). contradiction.
Qed.

Lemma falsy_values (v : JSValue) :
  ToBoolean v = false
  <-> v = VUndefined \/ v = VNull \/ v = VBool false \/ v = VNumber NaN
      \/ v = VNumber (Finite 0) \/ v = VString EmptyString.
Proof.
  split.
  - destruct v as [| |b|n|s]; simpl; intro H; auto.
    + subst b. auto.
    + destruct n as [|neg|z]; auto; try discriminate H.
      apply negb_false_iff, Z.eqb_eq in H. subst z. auto 6.
    + apply negb_false_iff, String.eqb_eq in H. subst s. auto 6.
  - intros [->|[->|[->|[->|[->| ->]]]]]; reflexivity.
Qed.

(** C5: after construction the registry holds the fourteen built-in rules;
    each of them but [required] returns [true] for the value [undefined],
    for [null] and for the empty string, whatever the parameters and the
    form data; [required] returns [true] iff the value is neither [null]
    nor [undefined] and its text, once trimmed, is not empty (and [false]
    otherwise). *)
Theorem builtin_rules_pass_on_absent_or_empty (m : Machine World) :
  let registry := validationRules (self (snd (constructor rt m))) in
  JSMap.keys registry = builtin_names
  /\ (forall name, In name builtin_names -> name <> "required" ->
        exists p,
          JSMap.get name registry = Some p
          /\ forall params formData w,
               p VUndefined params formData w = (Normal (VBool true), w)
               /\ p VNull params formData w = (Normal (VBool true), w)
               /\ p (VString EmptyString) params formData w = (Normal (VBool true), w))
  /\ (exists p,
        JSMap.get "required" registry = Some p
        /\ forall value params formData w,
             p value params formData w
             = (Normal (VBool (present value
                               && negb (String.eqb (trim (ToString value)) EmptyString))),
                w)).
Proof.
  intro registry. split; [reflexivity|]. split.
  - intros name Hin Hname.
    destruct (@builtin_registered m name Hin) as [p Hp].
    exists p. split; [exact Hp|].
    pose proof (@builtin_guards World rt m name p Hp Hname) as G.
    intros params formData w. repeat split; apply G; reflexivity.
  - eexists. split; [reflexivity|].
    intros. unfold lift_predicate. now rewrite rule_required_eq.
Qed.

(** C9: each built-in rule but [required] opens with [if (!value) return
    true], so it returns [true] for every falsy value, whatever the
    parameters and the form data; the falsy values are [undefined], [null],
    [false], [NaN], [0] and the empty string.  So [min] with
    [{value: 5}] passes the number [0], and [number] passes [false]. *)
Theorem builtin_rules_pass_on_falsy_values (m : Machine World) :
  let registry := validationRules (self (snd (constructor rt m))) in
  (forall name, In name builtin_names -> name <> "required" ->
     exists p,
       JSMap.get name registry = Some p
       /\ forall value, ToBoolean value = false ->
          forall params formData w,
            p value params formData w = (Normal (VBool true), w))
  /\ (forall value,
        ToBoolean value = false
        <-> value = VUndefined \/ value = VNull \/ value = VBool false
            \/ value = VNumber NaN \/ value = VNumber (Finite 0)
            \/ value = VString EmptyString)
  /\ (exists p,
        JSMap.get "min" registry = Some p
        /\ forall formData w,
             p (VNumber (Finite 0)) [("value", VNumber (Finite 5))] formData w
             = (Normal (VBool true), w))
  /\ (exists p,
        JSMap.get "number" registry = Some p
        /\ forall params formData w,
             p (VBool false) params formData w = (Normal (VBool true), w)).
Proof.
  intro registry. split; [|split; [|split]].
  - intros name Hin Hname.
    destruct (@builtin_registered m name Hin) as [p Hp].
    exists p. split; [exact Hp|]. exact (@builtin_guards World rt m name p Hp Hname).
  - apply falsy_values.
  - eexists. split; [reflexivity|]. reflexivity.
  - eexists. split; [reflexivity|]. reflexivity.
Qed.

End BuiltinClaims.

(** ** Validating twice *)

Section Idempotence.

Context {World : Type}.
Variable rt : Runtime.

Local Open Scope js_scope.

Lemma pure_predicate_result (p : Predicate World) :
  pure_predicate p ->
  forall v ps fd w w', fst (p v ps fd w) = fst (p v ps fd w').
Proof. intros [f H] v ps fd w w'. now rewrite !H. Qed.

Lemma validate_rule_same_result value fd r errors (m m' : Machine World) :
  all_pure (self m) -> self m = self m' ->
  fst (validate_rule rt value fd r errors m)
  = fst (validate_rule rt value fd r errors m').
Proof.
  intros Hpure Hself.
  destruct (JSMap.get (ruleName_of r) (validationRules (self m)))
    as [p|] eqn:G.
  - rewrite (validate_rule_known rt value fd r errors m G).
    rewrite Hself in G.
    rewrite (validate_rule_known rt value fd r errors m' G).
    rewrite <- Hself in G. simpl.
    rewrite (pure_predicate_result (Hpure _ _ G) value (ruleParams_of r) fd
               (world m) (world m')).
    now rewrite Hself.
  - rewrite (validate_rule_unknown rt value fd r errors m G).
    rewrite Hself in G.
    now rewrite (validate_rule_unknown rt value fd r errors m' G).
Qed.

Lemma forEach_rules_same_result value fd (rules : list RuleReference) :
  forall errors (m m' : Machine World),
    all_pure (self m) -> self m = self m' ->
    fst (forEach rules (validate_rule rt value fd) errors m)
    = fst (forEach rules (validate_rule rt value fd) errors m').
Proof.
  induction rules as [|r rest IH]; intros errors m m' Hpure Hself.
  - reflexivity.
  - simpl. unfold bind.
    pose proof (validate_rule_same_result value fd r errors m m' Hpure Hself) as R.
    pose proof (keeps_this_validate_rule rt value fd r errors m) as K.
    pose proof (keeps_this_validate_rule rt value fd r errors m') as K'.
    destruct (validate_rule rt value fd r errors m) as [[e1|x] m1];
      destruct (validate_rule rt value fd r errors m') as [[e1'|x'] m1'];
      simpl in *; try discriminate R.
    + injection R as <-. apply IH.
      * now rewrite K.
      * now rewrite K, K'.
    + congruence.
Qed.

Lemma validateField_same_result fieldName value formData (m m' : Machine World) :
  all_pure (self m) -> self m = self m' ->
  fst (validateField rt fieldName value formData m)
  = fst (validateField rt fieldName value formData m').
Proof.
  intros Hpure Hself. unfold validateField. cbv zeta.
  unfold bind at 1 3, get_this. rewrite <- Hself.
  destruct (JSMap.get fieldName (fieldConfigs (self m))) as [[[rules|v]|v]|];
    try reflexivity.
  - unfold bind.
    pose proof (forEach_rules_same_result value (formData_default formData)
                  rules [] m m' Hpure Hself) as R.
    destruct (forEach rules _ [] m) as [[e1|x] m1];
      destruct (forEach rules _ [] m') as [[e1'|x'] m1'];
      simpl in *; try discriminate R.
    + now injection R as <-.
    + congruence.
  - destruct (negb (ToBoolean v)); reflexivity.
Qed.

Lemma validate_entry_eq formData (entry : string * FieldConfig) results
    isFormValid (m : Machine World) :
  validate_entry rt formData entry (results, isFormValid) m
  = match validateField rt (fst entry) (prop (fst entry) formData)
            (Some formData) m with
    | (Normal fieldResult, m1) =>
        (Normal (obj_set (fst entry) fieldResult results,
                 if negb (isValid fieldResult) then false else isFormValid),
         m1)
    | (Throw e, m1) => (Throw e, m1)
    end.
Proof. reflexivity. Qed.

Lemma forEach_entries_same_result formData
    (entries : list (string * FieldConfig)) :
  forall locals (m m' : Machine World),
    all_pure (self m) -> self m = self m' ->
    fst (forEach entries (validate_entry rt formData) locals m)
    = fst (forEach entries (validate_entry rt formData) locals m').
Proof.
  induction entries as [|entry rest IH]; intros locals m m' Hpure Hself.
  - reflexivity.
  - simpl. unfold bind. destruct locals as [results isFormValid].
    rewrite !validate_entry_eq.
    pose proof (validateField_same_result (fst entry)
                  (prop (fst entry) formData) (Some formData) m m'
                  Hpure Hself) as R.
    pose proof (keeps_this_validateField rt (fst entry)
                  (prop (fst entry) formData) (Some formData) m) as K.
    pose proof (keeps_this_validateField rt (fst entry)
                  (prop (fst entry) formData) (Some formData) m') as K'.
    destruct (validateField rt (fst entry) _ _ m) as [[res|x] m1];
      destruct (validateField rt (fst entry) _ _ m') as [[res'|x'] m1'];
      simpl in *; try discriminate R.
    + injection R as <-. apply IH.
      * now rewrite K.
      * now rewrite K, K'.
    + congruence.
Qed.

Lemma validateForm_same_result formData (m m' : Machine World) :
  all_pure (self m) -> self m = self m' ->
  fst (validateForm rt formData m) = fst (validateForm rt formData m').
Proof.
  intros Hpure Hself. unfold validateForm.
  unfold bind at 1 3, get_this. rewrite <- Hself. unfold bind.
  pose proof (forEach_entries_same_result formData
                (JSMap.entries (fieldConfigs (self m))) ([], true) m m'
                Hpure Hself) as R.
  destruct (forEach _ _ _ m) as [[locals|x] m1];
    destruct (forEach _ _ _ m') as [[locals'|x'] m1'];
    simpl in *; try discriminate R.
  - injection R as <-. destruct locals. reflexivity.
  - congruence.
Qed.

(** C8: when every registered predicate is pure, two calls of
    [validateForm] in succession on the same form data have the same
    outcome: the same [FormValidationResult] ([isValid], the results per
    field and the flattened errors), or the same exception. *)
Theorem validateForm_twice_same_result formData (m : Machine World) :
  (forall name p,
      JSMap.get name (validationRules (self m)) = Some p -> pure_predicate p) ->
  fst (validateForm rt formData (snd (validateForm rt formData m)))
  = fst (validateForm rt formData m).
Proof.
  intro Hpure. symmetry. apply validateForm_same_result.
  - exact Hpure.
  - symmetry. apply keeps_this_validateForm.
Qed.

End Idempotence.

(** ** Substituting placeholders *)

Lemma prefix_cons (a c : ascii) (x r : string) :
  prefix (String a x) (String c r) = true <-> a = c /\ prefix x r = true.
Proof.
  simpl. destruct (ascii_dec a c) as [E|E]; split; intro H.
  - auto.
  - apply H.
  - discriminate H.
  - destruct H as [H _]. contradiction.
Qed.

Lemma prefix_empty_subject (x : string) :
  prefix x EmptyString = true -> x = EmptyString.
Proof. destruct x; simpl; [reflexivity | discriminate]. Qed.

Lemma prefix_split (x s : string) :
  prefix x s = true -> s = x ++ string_drop (String.length x) s.
Proof.
  revert s. induction x as [|a x IH]; intros s H.
  - reflexivity.
  - destruct s as [|c r]; [discriminate H|].
    apply prefix_cons in H. destruct H as [-> H].
    simpl. f_equal. apply IH, H.
Qed.

Lemma prefix_app (x rest : string) : prefix x (x ++ rest) = true.
Proof.
  induction x as [|a x IH]; simpl.
  - destruct rest; reflexivity.
  - destruct (ascii_dec a a); [exact IH | contradiction].
Qed.

Lemma occurs_cons (q : string) (c : ascii) (r : string) :
  occurs q (String c r) = prefix q (String c r) || occurs q r.
Proof. reflexivity. Qed.

Lemma occurs_app_right (q x r : string) :
  occurs q r = true -> occurs q (x ++ r) = true.
Proof.
  intro H. induction x as [|a x IH].
  - exact H.
  - change (String a x ++ r) with (String a (x ++ r)).
    rewrite occurs_cons, IH. apply orb_true_r.
Qed.

Lemma string_app_assoc (a b c : string) : (a ++ b) ++ c = a ++ (b ++ c).
Proof. induction a as [|x a IH]; simpl; [reflexivity | now rewrite IH]. Qed.

Lemma string_length_app (a b : string) :
  String.length (a ++ b) = (String.length a + String.length b)%nat.
Proof. induction a as [|x a IH]; simpl; [reflexivity | now rewrite IH]. Qed.

Lemma string_drop_app (x rest : string) :
  string_drop (String.length x) (x ++ rest) = rest.
Proof. induction x as [|a x IH]; simpl; [reflexivity | exact IH]. Qed.

Lemma plain_key_no_brace (key : string) :
  plain_key key = true -> no_char "{" key = true /\ no_char "}" key = true.
Proof.
  unfold plain_key, no_char. induction key as [|c r IH]; simpl; intro H.
  - auto.
  - apply andb_true_iff in H. destruct H as [Hc Hr].
    destruct (IH Hr) as [H1 H2]. rewrite H1, H2.
    split; apply andb_true_iff; split; auto; apply negb_true_iff;
      apply Ascii.eqb_neq; intros ->; vm_compute in Hc; discriminate Hc.
Qed.

Lemma no_char_app (b : ascii) (x y : string) :
  no_char b (x ++ y) = no_char b x && no_char b y.
Proof.
  unfold no_char. induction x as [|c x IH]; simpl.
  - reflexivity.
  - now rewrite IH, andb_assoc.
Qed.

(** Two placeholders that start at the same place are the same. *)
Lemma closing_brace_unique (k p s : string) :
  no_char "}" k = true -> no_char "}" p = true ->
  prefix (k ++ "}") s = true -> prefix (p ++ "}") s = true -> k = p.
Proof.
  revert p s. induction k as [|a k IH]; intros p s Hk Hp H1 H2.
  - destruct p as [|b p]; [reflexivity|].
    destruct s as [|c r]; [discriminate H1|].
    change (EmptyString ++ "}") with (String "}" EmptyString) in H1.
    change (String b p ++ "}") with (String b (p ++ "}")) in H2.
    apply prefix_cons in H1. destruct H1 as [<- _].
    apply prefix_cons in H2. destruct H2 as [-> _].
    discriminate Hp.
  - destruct s as [|c r]; [discriminate H1|].
    change (String a k ++ "}") with (String a (k ++ "}")) in H1.
    apply prefix_cons in H1. destruct H1 as [-> H1].
    unfold no_char in Hk. simpl in Hk. apply andb_true_iff in Hk.
    destruct Hk as [Hc Hk].
    destruct p as [|b p].
    + change (EmptyString ++ "}") with (String "}" EmptyString) in H2.
      apply prefix_cons in H2. destruct H2 as [<- _].
      discriminate Hc.
    + change (String b p ++ "}") with (String b (p ++ "}")) in H2.
      apply prefix_cons in H2. destruct H2 as [-> H2].
      unfold no_char in Hp. simpl in Hp. apply andb_true_iff in Hp.
      destruct Hp as [_ Hp].
      f_equal. exact (IH p r Hk Hp H1 H2).
Qed.

(** A text that starts with a brace does not occur inside a text without
    one. *)
Lemma occurs_after_braceless (q x rest : string) :
  no_char "{" x = true ->
  occurs (String "{" q) (x ++ rest) = true ->
  occurs (String "{" q) rest = true.
Proof.
  intro Hx. induction x as [|c x IH]; intro H.
  - exact H.
  - unfold no_char in Hx. simpl in Hx. apply andb_true_iff in Hx.
    destruct Hx as [Hc Hx].
    change (String c x ++ rest) with (String c (x ++ rest)) in H.
    rewrite occurs_cons in H. apply orb_true_iff in H. destruct H as [H|H].
    + apply prefix_cons in H. destruct H as [<- _]. discriminate Hc.
    + apply IH; assumption.
Qed.

Lemma GetSubstitution_dollar_free (matched before after repl : string) :
  dollar_free repl = true ->
  GetSubstitution matched before after repl = repl.
Proof.
  unfold dollar_free. induction repl as [|c r IH]; simpl; intro H.
  - reflexivity.
  - apply andb_true_iff in H. destruct H as [Hc Hr].
    apply negb_true_iff in Hc. rewrite Hc. f_equal. apply IH, Hr.
Qed.

Lemma replace_from_scan (pat repl before : string) (c : ascii) (r : string) :
  replace_from pat repl before (String c r) 0
  = if prefix pat (String c r)
    then GetSubstitution pat before
           (string_drop (String.length pat) (String c r)) repl
         ++ replace_from pat repl (before ++ String c EmptyString) r
              (String.length pat - 1)
    else String c (replace_from pat repl (before ++ String c EmptyString) r 0).
Proof. reflexivity. Qed.

Lemma replace_from_skip (pat repl before : string) (c : ascii) (r : string)
    (k : nat) :
  replace_from pat repl before (String c r) (S k)
  = replace_from pat repl (before ++ String c EmptyString) r k.
Proof. reflexivity. Qed.

Lemma substitute_from_scan (pat text : string) (c : ascii) (r : string) :
  substitute_from pat text (String c r) 0
  = if prefix pat (String c r)
    then text ++ substitute_from pat text r (String.length pat - 1)
    else String c (substitute_from pat text r 0).
Proof. reflexivity. Qed.

Lemma replace_from_substitute (pat repl : string) :
  dollar_free repl = true ->
  forall s before skip,
    replace_from pat repl before s skip = substitute_from pat repl s skip.
Proof.
  intro H. induction s as [|c r IH]; intros before skip.
  - reflexivity.
  - destruct skip as [|k].
    + rewrite replace_from_scan, substitute_from_scan.
      rewrite GetSubstitution_dollar_free by exact H. rewrite !IH. reflexivity.
    + apply IH.
Qed.

Lemma replace_from_absent (pat repl : string) :
  forall s before,
    occurs pat s = false -> replace_from pat repl before s 0 = s.
Proof.
  induction s as [|c r IH]; intros before H.
  - reflexivity.
  - rewrite occurs_cons in H. apply orb_false_iff in H. destruct H as [H1 H2].
    rewrite replace_from_scan, H1. f_equal. apply IH, H2.
Qed.

Lemma string_app_empty (s : string) : s ++ EmptyString = s.
Proof. induction s as [|c s IH]; simpl; [reflexivity | now rewrite IH]. Qed.

Lemma prefix_other_start (a c : ascii) (x r : string) :
  a <> c -> prefix (String a x) (String c r) = false.
Proof.
  intro H. destruct (prefix (String a x) (String c r)) eqn:E; [|reflexivity].
  apply prefix_cons in E. destruct E as [E _]. contradiction.
Qed.

(** No match starts inside a text without an opening brace. *)
Lemma replace_from_braceless (k repl x rest : string) :
  no_char "{" x = true ->
  forall before,
    replace_from (String "{" k) repl before (x ++ rest) 0
    = x ++ replace_from (String "{" k) repl (before ++ x) rest 0.
Proof.
  induction x as [|c x IH]; intros Hx before.
  - simpl. now rewrite string_app_empty.
  - unfold no_char in Hx. simpl in Hx. apply andb_true_iff in Hx.
    destruct Hx as [Hc Hx].
    change (String c x ++ rest) with (String c (x ++ rest)).
    rewrite replace_from_scan.
    rewrite prefix_other_start
      by (intros <-; discriminate Hc).
    simpl. f_equal. rewrite IH by exact Hx.
    rewrite string_app_assoc. reflexivity.
Qed.

(** A placeholder with another name survives the replacement. *)
Lemma replace_from_keeps_placeholder (k p repl : string) :
  plain_key k = true -> plain_key p = true -> k <> p ->
  forall s skip before,
    occurs (placeholder p) (string_drop skip s) = true ->
    occurs (placeholder p) (replace_from (placeholder k) repl before s skip)
    = true.
Proof.
  intros Hk Hp Hne.
  destruct (plain_key_no_brace k Hk) as [Hko Hkc].
  destruct (plain_key_no_brace p Hp) as [Hpo Hpc].
  unfold placeholder.
  change ("{" ++ k ++ "}") with (String "{" (k ++ "}")).
  change ("{" ++ p ++ "}") with (String "{" (p ++ "}")).
  induction s as [|c r IH]; intros skip before H.
  - destruct skip; discriminate H.
  - destruct skip as [|n].
    + change (string_drop 0 (String c r)) with (String c r) in H.
      rewrite occurs_cons in H. apply orb_true_iff in H.
      rewrite replace_from_scan.
      destruct (prefix (String "{" (k ++ "}")) (String c r)) eqn:M.
      * apply prefix_cons in M. destruct M as [<- M].
        apply occurs_app_right. apply IH.
        destruct H as [H|H].
        -- apply prefix_cons in H. destruct H as [_ H].
           elim Hne. exact (closing_brace_unique k p r Hkc Hpc M H).
        -- rewrite (prefix_split _ _ M) in H.
           apply occurs_after_braceless in H.
           ++ replace (String.length (String "{" (k ++ "}")) - 1)%nat
                with (String.length (k ++ "}")) by (simpl; lia).
              rewrite (prefix_split _ _ M) at 1.
              rewrite string_drop_app. exact H.
           ++ rewrite no_char_app, Hko. reflexivity.
      * rewrite occurs_cons. apply orb_true_iff.
        destruct H as [H|H].
        -- left. apply prefix_cons in H. destruct H as [<- H].
           apply prefix_cons. split; [reflexivity|].
           rewrite (prefix_split _ _ H).
           rewrite replace_from_braceless
             by (rewrite no_char_app, Hpo; reflexivity).
           apply prefix_app.
        -- right. apply (IH 0%nat). exact H.
    + rewrite replace_from_skip. apply IH. exact H.
Qed.

Section Formatting.

Context {World : Type}.
Variable rt : Runtime.

Lemma replace_placeholder_plain key value message :
  plain_key key = true ->
  replace_placeholder rt key value message
  = Normal (replace_all (placeholder key) (ToString value) message).
Proof. intro H. unfold replace_placeholder. now rewrite H. Qed.

Lemma format_steps_substitute (ps : Params) :
  plain_params ps = true ->
  forallb (fun entry => dollar_free (ToString (snd entry))) ps = true ->
  forall message,
    format_steps rt ps message = Normal (substitute_params ps message).
Proof.
  unfold substitute_params.
  induction ps as [|[key value] r IH]; intros Hplain Hfree message.
  - reflexivity.
  - simpl in *. apply andb_true_iff in Hplain. destruct Hplain as [Hk Hr].
    apply andb_true_iff in Hfree. destruct Hfree as [Hv Hf].
    destruct (has_value value).
    + rewrite replace_placeholder_plain by exact Hk. simpl.
      rewrite IH by assumption. unfold replace_all, substitute.
      now rewrite replace_from_substitute by exact Hv.
    + apply IH; assumption.
Qed.

Lemma format_steps_keeps_placeholder (ps : Params) (p : string) :
  plain_params ps = true -> plain_key p = true ->
  (forall entry, In entry ps -> fst entry <> p) ->
  forall message,
    occurs (placeholder p) message = true ->
    exists text,
      format_steps rt ps message = Normal text
      /\ occurs (placeholder p) text = true.
Proof.
  intros Hplain Hp. induction ps as [|[key value] r IH]; intros Hkeys message H.
  - exists message. auto.
  - simpl in *. apply andb_true_iff in Hplain. destruct Hplain as [Hk Hr].
    assert (forall entry, In entry r -> fst entry <> p) as Hkeys'
      by (intros entry Hin; apply Hkeys; now right).
    destruct (has_value value).
    + rewrite replace_placeholder_plain by exact Hk. simpl.
      apply IH; try assumption. unfold replace_all.
      apply replace_from_keeps_placeholder; try assumption.
      exact (Hkeys (key, value) (or_introl eq_refl)).
    + apply IH; assumption.
Qed.

(** C6, as the code has it: [formatErrorMessage(ruleName, params)] starts
    from the template registered for the rule, or from ['Invalid value']
    when the rule is unknown or its template is the empty string, and goes
    through the entries of [params] in order.  With keys that hold no
    syntax character of regular expressions it returns a text; when no
    value's text holds a [$], that text is the template in which, for
    exactly the keys whose value is neither [null], [undefined] nor the
    empty string, every occurrence of [{key}] has been replaced by the text
    of the value.  A key with no matching placeholder changes nothing, and
    a placeholder whose name is no key of [params] is still in the output.
    In particular [formatErrorMessage('minLength', {length: 5})] on a new
    validator is ['Must be at least 5 characters long']. *)
Theorem formatErrorMessage_replaces_placeholders ruleName (params : Params)
    (m : Machine World) :
  plain_params params = true ->
  exists text,
    formatErrorMessage rt ruleName (Some params) m = (Normal text, m)
    /\ (forallb (fun entry => dollar_free (ToString (snd entry))) params = true ->
        text = substitute_params params
                 (template_of (errorMessages (self m)) ruleName))
    /\ (forall key value message,
          plain_key key = true ->
          occurs (placeholder key) message = false ->
          replace_entry rt (key, value) message m = (Normal message, m))
    /\ (forall p,
          plain_key p = true ->
          (forall entry, In entry params -> fst entry <> p) ->
          occurs (placeholder p) (template_of (errorMessages (self m)) ruleName)
          = true ->
          occurs (placeholder p) text = true)
    /\ formatErrorMessage rt "minLength" (Some [("length", VNumber (Finite 5))])
         (snd (constructor rt m))
       = (Normal "Must be at least 5 characters long", snd (constructor rt m)).
Proof.
  intro Hplain.
  destruct (format_steps_plain rt params
              (template_of (errorMessages (self m)) ruleName) Hplain)
    as [text Htext].
  exists text. rewrite formatErrorMessage_eq, Htext.
  split; [reflexivity|]. split; [|split; [|split]].
  - intro Hfree.
    rewrite format_steps_substitute in Htext by assumption. congruence.
  - intros key value message Hkey Habsent.
    rewrite replace_entry_eq. simpl fst. simpl snd.
    destruct (has_value value); [|reflexivity].
    rewrite replace_placeholder_plain by exact Hkey.
    unfold replace_all. now rewrite replace_from_absent.
  - intros p Hp Hkeys Hocc.
    destruct (format_steps_keeps_placeholder params Hplain Hp Hkeys _ Hocc)
      as (text' & E & Hocc').
    congruence.
  - rewrite formatErrorMessage_eq. reflexivity.
Qed.

Lemma pure_lift_predicate
    (f : JSValue -> Params -> FormData -> completion JSValue) :
  pure_predicate (@lift_predicate World f).
Proof. exists f. reflexivity. Qed.

Lemma builtins_are_pure (m : Machine World) :
  all_pure (self (snd (constructor rt m))).
Proof.
  intros name p H. apply JSMap_get_In in H. rewrite constructor_registry in H.
  simpl in H.
  repeat (destruct H as [H|H];
          [injection H as <- <-; apply pure_lift_predicate|]).
  contradiction.
Qed.

End Formatting.

(** ** The claims on concrete validators *)

(** C1 fails on the code: on a field that asks for [explode] and then for
    [required], [validateField] throws what the predicate of [explode]
    throws, and [required] is never invoked. *)
Lemma predicate_exception_is_not_caught :
  fst (validateField bare_runtime "name" (VString EmptyString) None exploding_machine)
  = Throw (Thrown (VString "internal"))
  /\ map called_rule
       (invocations
          (snd (validateField bare_runtime "name" (VString EmptyString) None
                  exploding_machine)))
     = ["explode"].
Proof. split; reflexivity. Qed.

Lemma predicate_exception_propagates_witness :
  JSMap.get "name" (fieldConfigs (self exploding_machine))
  = Some (ConfigObject
            (RulesArray ([] ++ RuleName "explode" :: [RuleName "required"])))
  /\ exists m',
       validateField bare_runtime "name" (VString EmptyString) None exploding_machine
       = (Throw (Thrown (VString "internal")), m')
       /\ invocations m'
          = (invocations exploding_machine
             ++ [invocation_of (VString EmptyString) (formData_default None)
                   (RuleName "explode")
                   (throwing_predicate (Thrown (VString "internal")))
                   (world exploding_machine)])%list
       /\ console m' = console exploding_machine
       /\ self m' = self exploding_machine.
Proof.
  split; [reflexivity|].
  apply (@predicate_exception_propagates unit bare_runtime "name" (VString EmptyString)
           None [] [RuleName "required"] (RuleName "explode")
           (throwing_predicate (Thrown (VString "internal")))
           (Thrown (VString "internal")) [] exploding_machine
           exploding_machine); reflexivity.
Defined.


Lemma unknown_rule_is_skipped_witness :
  JSMap.get "nickname" (fieldConfigs (self lenient_machine))
  = Some (ConfigObject (RulesArray [RuleName "doesNotExist"]))
  /\ forallb (fun r => negb (registered (self lenient_machine) (ruleName_of r)))
       [RuleName "doesNotExist"] = true
  /\ exists m',
       validateField bare_runtime "nickname" (VString "x") None lenient_machine
       = (Normal {| isValid := true; errors := [] |}, m')
       /\ console m'
          = (console lenient_machine
             ++ map warning_line (map ruleName_of [RuleName "doesNotExist"]))%list
       /\ invocations m' = invocations lenient_machine
       /\ self m' = self lenient_machine.
Proof.
  split; [reflexivity|]. split; [reflexivity|].
  apply (proj2 (proj2 (@unknown_rule_is_skipped_with_a_warning unit
                         bare_runtime "nickname" (VString "x") None
                         [RuleName "doesNotExist"] lenient_machine eq_refl))).
  reflexivity.
Defined.

(** C4 fails on the code: [configureField] returns normally on a
    configuration whose [rules] is a string; the error comes with the next
    [validateField], as a [TypeError]. *)
Lemma configureField_does_not_raise :
  fst (configureField "email" malformed_config (new_machine bare_runtime tt))
  = Normal tt
  /\ fst (validateField bare_runtime "email" (VString "a@b.c") None
            (with_field "email" malformed_config (new_machine bare_runtime tt)))
     = Throw TypeError.
Proof. split; reflexivity. Qed.

Lemma builtin_rules_pass_on_absent_or_empty_witness :
  In "email" builtin_names /\ "email" <> "required"
  /\ exists p,
       JSMap.get "email" (validationRules (self (new_machine bare_runtime tt)))
       = Some p
       /\ forall params formData w,
            p VUndefined params formData w = (Normal (VBool true), w)
            /\ p VNull params formData w = (Normal (VBool true), w)
            /\ p (VString EmptyString) params formData w = (Normal (VBool true), w).
Proof.
  assert (In "email" builtin_names) as Hin by (simpl; auto 8).
  assert ("email" <> "required") as Hne by discriminate.
  split; [exact Hin|]. split; [exact Hne|].
  exact (proj1 (proj2 (@builtin_rules_pass_on_absent_or_empty unit bare_runtime
                         (blank_machine tt))) "email" Hin Hne).
Defined.

Lemma builtin_rules_pass_on_falsy_values_witness :
  In "min" builtin_names /\ "min" <> "required"
  /\ ToBoolean (VNumber (Finite 0)) = false
  /\ exists p,
       JSMap.get "min" (validationRules (self (new_machine bare_runtime tt)))
       = Some p
       /\ p (VNumber (Finite 0)) [("value", VNumber (Finite 5))] [] tt
          = (Normal (VBool true), tt).
Proof.
  assert (In "min" builtin_names) as Hin by (simpl; auto 10).
  assert ("min" <> "required") as Hne by discriminate.
  split; [exact Hin|]. split; [exact Hne|]. split; [reflexivity|].
  destruct (proj1 (@builtin_rules_pass_on_falsy_values unit bare_runtime
                     (blank_machine tt)) "min" Hin Hne) as [p [Hp Hguard]].
  exists p. split; [exact Hp|].
  apply Hguard. reflexivity.
Defined.

(** C6 fails on the code: a rule registered with the empty template is
    formatted from ['Invalid value'], the text [$$] of a value is inserted
    as [$], and the placeholder of the key [price$] is not replaced. *)
Lemma formatErrorMessage_is_not_the_specified_text :
  (fst (formatErrorMessage bare_runtime "silent" (Some []) silent_machine)
   = Normal "Invalid value"
   /\ spec_formatErrorMessage (errorMessages (self silent_machine)) "silent" []
      = EmptyString)
  /\ (fst (formatErrorMessage bare_runtime "min"
             (Some [("value", VString "$$")]) (new_machine bare_runtime tt))
      = Normal "Value must be at least $"
      /\ spec_formatErrorMessage
           (errorMessages (self (new_machine bare_runtime tt))) "min"
           [("value", VString "$$")]
         = "Value must be at least $$")
  /\ (fst (formatErrorMessage bare_runtime "cost"
             (Some [("price$", VNumber (Finite 5))]) priced_machine)
      = Normal "Costs {price$}"
      /\ spec_formatErrorMessage (errorMessages (self priced_machine)) "cost"
           [("price$", VNumber (Finite 5))]
         = "Costs 5").
Proof. repeat split; reflexivity. Qed.

Lemma formatErrorMessage_replaces_placeholders_witness :
  plain_params [("min", VNumber (Finite 18))] = true
  /\ exists text,
       formatErrorMessage bare_runtime "age"
         (Some [("min", VNumber (Finite 18))]) (new_machine bare_runtime tt)
       = (Normal text, new_machine bare_runtime tt)
       /\ text = "Please enter a valid age between 18 and {max}".
Proof.
  split; [reflexivity|].
  destruct (@formatErrorMessage_replaces_placeholders unit bare_runtime "age"
              [("min", VNumber (Finite 18))] (new_machine bare_runtime tt)
              eq_refl) as (text & E & Hsub & _).
  exists text. split; [exact E|]. exact (Hsub eq_refl).
Defined.

Lemma last_registration_wins_witness :
  forallb (fun c => negb (registers "email" c))
    [Call_validateForm []; @Call_clearAll unit] = true
  /\ JSMap.get "email"
       (validationRules
          (self (after_calls bare_runtime
                   [Call_validateForm []; Call_clearAll]
                   (with_rule "email" (constant_predicate (VBool false)) "second"
                      (with_rule "email" (constant_predicate (VBool true))
                         "first" (new_machine bare_runtime tt))))))
     = Some (constant_predicate (VBool false)).
Proof.
  split; [reflexivity|].
  exact (proj1 (proj2 (@last_registration_wins unit bare_runtime "email"
                         (constant_predicate (VBool true))
                         (constant_predicate (VBool false)) "first" "second"
                         (new_machine bare_runtime tt))
                  [Call_validateForm []; Call_clearAll] eq_refl)).
Defined.

Lemma validateForm_twice_same_result_witness :
  (forall name p,
      JSMap.get name (validationRules (self sample_machine)) = Some p ->
      pure_predicate p)
  /\ fst (validateForm bare_runtime [("name", VString "ab")]
            (snd (validateForm bare_runtime [("name", VString "ab")]
                    sample_machine)))
     = fst (validateForm bare_runtime [("name", VString "ab")] sample_machine).
Proof.
  assert (forall name p,
             JSMap.get name (validationRules (self sample_machine)) = Some p ->
             pure_predicate p) as Hpure
    by exact (@builtins_are_pure unit bare_runtime (blank_machine tt)).
  split; [exact Hpure|].
  exact (@validateForm_twice_same_result unit bare_runtime
           [("name", VString "ab")] sample_machine Hpure).
Defined.

Lemma reading_methods_keep_the_state_witness :
  writes_state (method_of (@Call_validateForm unit [("name", VString EmptyString)]))
  = false
  /\ self (after_call bare_runtime (Call_validateForm [("name", VString EmptyString)])
             sample_machine)
     = self sample_machine.
Proof.
  split; [reflexivity|].
  exact (proj1 (@reading_methods_keep_the_state unit bare_runtime tt)
           (Call_validateForm [("name", VString EmptyString)]) sample_machine eq_refl).
Defined.

(** * Further properties of the validator *)

(** ** Maps and objects *)

Lemma distinct_NoDup (l : list string) : distinct l = true -> NoDup l.
Proof.
  induction l as [|x r IH]; simpl; intro H.
  - constructor.
  - apply andb_true_iff in H. destruct H as [Hx Hr]. constructor.
    + intro Hin. apply negb_true_iff in Hx.
      assert (existsb (String.eqb x) r = true) as E.
      { apply existsb_exists. exists x. split; [exact Hin|].
        apply String.eqb_refl. }
      congruence.
    + apply IH, Hr.
Qed.

Lemma JSMap_get_None {V : Type} (key : string) (m : JSMap.t V) :
  JSMap.get key m = None <-> ~ In key (JSMap.keys m).
Proof.
  induction m as [|[k v] r IH]; simpl.
  - split; auto.
  - destruct (String.eqb k key) eqn:E.
    + apply String.eqb_eq in E. split; [discriminate|]. intro H. elim H. auto.
    + apply String.eqb_neq in E. rewrite IH. split.
      * intros H [H'|H']; auto.
      * intros H H'. apply H. auto.
Qed.

Lemma JSMap_keys_set {V : Type} (key : string) (v : V) (m : JSMap.t V) :
  JSMap.keys (JSMap.set key v m)
  = match JSMap.get key m with
    | Some _ => JSMap.keys m
    | None => (JSMap.keys m ++ [key])%list
    end.
Proof.
  induction m as [|[k w] r IH]; simpl.
  - reflexivity.
  - destruct (String.eqb k key) eqn:E; simpl.
    + reflexivity.
    + rewrite IH. destruct (JSMap.get key r); reflexivity.
Qed.

Lemma JSMap_set_NoDup {V : Type} (key : string) (v : V) (m : JSMap.t V) :
  NoDup (JSMap.keys m) -> NoDup (JSMap.keys (JSMap.set key v m)).
Proof.
  intro H. rewrite JSMap_keys_set.
  destruct (JSMap.get key m) eqn:G; [exact H|].
  apply JSMap_get_None in G.
  apply NoDup_rev in H. rewrite <- (rev_involutive (_ ++ _)).
  apply NoDup_rev. rewrite rev_app_distr. simpl. constructor.
  - rewrite <- in_rev. exact G.
  - exact H.
Qed.

Lemma JSMap_keys_delete {V : Type} (key k : string) (m : JSMap.t V) :
  In k (JSMap.keys (JSMap.delete key m)) -> In k (JSMap.keys m).
Proof.
  induction m as [|[k' w] r IH]; simpl; [auto|].
  destruct (String.eqb k' key); simpl; intuition.
Qed.

Lemma JSMap_delete_NoDup {V : Type} (key : string) (m : JSMap.t V) :
  NoDup (JSMap.keys m) -> NoDup (JSMap.keys (JSMap.delete key m)).
Proof.
  induction m as [|[k w] r IH]; simpl; intro H.
  - constructor.
  - inversion H as [|? ? Hk Hr]; subst.
    destruct (String.eqb k key); [exact Hr|]. simpl. constructor.
    + intro Hin. apply Hk. exact (JSMap_keys_delete _ _ _ Hin).
    + apply IH, Hr.
Qed.

Lemma JSMap_get_delete_same {V : Type} (key : string) (m : JSMap.t V) :
  NoDup (JSMap.keys m) -> JSMap.get key (JSMap.delete key m) = None.
Proof.
  induction m as [|[k w] r IH]; simpl; intro H.
  - reflexivity.
  - inversion H as [|? ? Hk Hr]; subst.
    destruct (String.eqb k key) eqn:E.
    + apply String.eqb_eq in E. subst k. apply JSMap_get_None, Hk.
    + simpl. rewrite E. apply IH, Hr.
Qed.

Lemma JSMap_get_delete_other {V : Type} (key key' : string) (m : JSMap.t V) :
  key <> key' -> JSMap.get key' (JSMap.delete key m) = JSMap.get key' m.
Proof.
  intro Hne. induction m as [|[k w] r IH]; simpl.
  - reflexivity.
  - destruct (String.eqb k key) eqn:E.
    + apply String.eqb_eq in E. subst k.
      destruct (String.eqb key key') eqn:E'; [|reflexivity].
      apply String.eqb_eq in E'. contradiction.
    + simpl. destruct (String.eqb k key'); [reflexivity | exact IH].
Qed.

Lemma obj_get_app {V : Type} (key : string) (a b : JSObject V) :
  obj_get key (a ++ b)%list
  = match obj_get key a with
    | Some v => Some v
    | None => obj_get key b
    end.
Proof.
  induction a as [|[k v] r IH]; simpl.
  - reflexivity.
  - destruct (String.eqb k key); [reflexivity | exact IH].
Qed.

Lemma JSMap_get_set {V : Type} (key key' : string) (v : V) (m : JSMap.t V) :
  JSMap.get key' (JSMap.set key v m)
  = if String.eqb key key' then Some v else JSMap.get key' m.
Proof.
  destruct (String.eqb key key') eqn:E.
  - apply String.eqb_eq in E. subst. apply JSMap_get_set_same.
  - apply String.eqb_neq in E. now apply JSMap_get_set_other.
Qed.

(** ** The stores after sequences of calls *)

Section StoreInvariants.

Context {World : Type}.
Variable rt : Runtime.

Local Open Scope js_scope.

Lemma configureFields_eq (configs : JSObject FieldConfig) (m : Machine World) :
  configureFields configs m
  = (Normal tt,
     {| self :=
          {| validationRules := validationRules (self m);
             errorMessages := errorMessages (self m);
             fieldConfigs :=
               fold_left (fun store entry =>
                            JSMap.set (fst entry) (snd entry) store)
                 configs (fieldConfigs (self m)) |};
        console := console m;
        world := world m;
        invocations := invocations m |}).
Proof.
  unfold configureFields, Object_entries. revert m.
  induction configs as [|entry r IH]; intro m.
  - destruct m as [[? ? ?] ? ? ?]. reflexivity.
  - simpl. unfold bind. rewrite configureField_self. rewrite IH. reflexivity.
Qed.

Lemma fold_set_get (fieldName : string) (configs : JSObject FieldConfig) :
  forall store : JSMap.t FieldConfig,
    JSMap.get fieldName
      (fold_left (fun store entry => JSMap.set (fst entry) (snd entry) store)
         configs store)
    = match last_config fieldName configs with
      | Some config => Some config
      | None => JSMap.get fieldName store
      end.
Proof.
  unfold last_config.
  induction configs as [|[k c] r IH]; intro store; simpl.
  - reflexivity.
  - rewrite IH, obj_get_app. destruct (obj_get fieldName (rev r)); [reflexivity|].
    simpl. rewrite JSMap_get_set. destruct (String.eqb k fieldName); reflexivity.
Qed.

Lemma fold_set_NoDup (configs : JSObject FieldConfig) :
  forall store : JSMap.t FieldConfig,
    NoDup (JSMap.keys store) ->
    NoDup (JSMap.keys
             (fold_left (fun store entry =>
                           JSMap.set (fst entry) (snd entry) store)
                configs store)).
Proof.
  induction configs as [|entry r IH]; intros store H; simpl.
  - exact H.
  - apply IH, JSMap_set_NoDup, H.
Qed.

Lemma new_machine_self (w : World) :
  JSMap.keys (validationRules (self (new_machine rt w))) = builtin_names
  /\ JSMap.keys (errorMessages (self (new_machine rt w))) = builtin_names
  /\ fieldConfigs (self (new_machine rt w)) = JSMap.empty.
Proof. repeat split; reflexivity. Qed.

(** The configuration store never holds a field twice. *)
Lemma after_call_unique_configs (c : Call World) (m : Machine World) :
  NoDup (JSMap.keys (fieldConfigs (self m))) ->
  NoDup (JSMap.keys (fieldConfigs (self (after_call rt c m)))).
Proof.
  intro H. destruct c; unfold after_call.
  - rewrite addValidationRule_self. exact H.
  - rewrite configureField_self. simpl. apply JSMap_set_NoDup, H.
  - rewrite configureFields_eq. simpl. apply fold_set_NoDup, H.
  - now rewrite keeps_this_validateField.
  - now rewrite keeps_this_validateForm.
  - now rewrite keeps_this_formatErrorMessage.
  - simpl. apply JSMap_delete_NoDup, H.
  - simpl. constructor.
  - exact H.
Qed.

Lemma after_calls_unique_configs (cs : list (Call World)) :
  forall m : Machine World,
    NoDup (JSMap.keys (fieldConfigs (self m))) ->
    NoDup (JSMap.keys (fieldConfigs (self (after_calls rt cs m)))).
Proof.
  induction cs as [|c r IH]; intros m H; simpl.
  - exact H.
  - apply IH, after_call_unique_configs, H.
Qed.

Lemma reached_unique_configs (cs : list (Call World)) (w : World) :
  NoDup (JSMap.keys (fieldConfigs (self (reached rt cs w)))).
Proof.
  apply after_calls_unique_configs.
  destruct (new_machine_self w) as (_ & _ & ->). constructor.
Qed.

Lemma same_rule_names_get (v : FormValidator World) name :
  same_rule_names v ->
  (JSMap.get name (validationRules v) = None
   <-> JSMap.get name (errorMessages v) = None).
Proof.
  unfold same_rule_names. intro H. rewrite !JSMap_get_None, H. reflexivity.
Qed.

Lemma after_call_same_rule_names (c : Call World) (m : Machine World) :
  same_rule_names (self m) -> same_rule_names (self (after_call rt c m)).
Proof.
  intro H. destruct c; unfold after_call.
  - rewrite addValidationRule_self. unfold same_rule_names. simpl.
    rewrite !JSMap_keys_set.
    pose proof (same_rule_names_get name H) as G.
    destruct (JSMap.get name (validationRules (self m))) as [p|];
      destruct (JSMap.get name (errorMessages (self m))) as [t|].
    + exact H.
    + destruct G as [_ G]. discriminate (G eq_refl).
    + destruct G as [G _]. discriminate (G eq_refl).
    + now rewrite H.
  - exact H.
  - unfold same_rule_names.
    destruct (keeps_registry_configureFields configs m) as [-> ->]. exact H.
  - now rewrite keeps_this_validateField.
  - now rewrite keeps_this_validateForm.
  - now rewrite keeps_this_formatErrorMessage.
  - exact H.
  - exact H.
  - exact H.
Qed.

Lemma after_calls_same_rule_names (cs : list (Call World)) :
  forall m : Machine World,
    same_rule_names (self m) -> same_rule_names (self (after_calls rt cs m)).
Proof.
  induction cs as [|c r IH]; intros m H; simpl.
  - exact H.
  - apply IH, after_call_same_rule_names, H.
Qed.

(** X1: the registry and the templates hold the same rule names, in the
    same order, in every state reached from a new validator through the
    public methods; so a rule is registered iff it has a template. *)
Theorem registry_and_templates_share_their_names
    (cs : list (Call World)) (w : World) :
  JSMap.keys (validationRules (self (reached rt cs w)))
  = JSMap.keys (errorMessages (self (reached rt cs w)))
  /\ forall name,
       registered (self (reached rt cs w)) name = true
       <-> exists template,
             JSMap.get name (errorMessages (self (reached rt cs w)))
             = Some template.
Proof.
  assert (same_rule_names (self (reached rt cs w))) as H
    by (apply after_calls_same_rule_names; reflexivity).
  split; [exact H|].
  intro name. pose proof (same_rule_names_get name H) as G.
  unfold registered.
  destruct (JSMap.get name (validationRules (self (reached rt cs w))));
    destruct (JSMap.get name (errorMessages (self (reached rt cs w)))) as [t|].
  - split; [now exists t | reflexivity].
  - destruct G as [_ G]. discriminate (G eq_refl).
  - destruct G as [G _]. discriminate (G eq_refl).
  - split; [discriminate | intros [t' E]; discriminate E].
Qed.

End StoreInvariants.

(** ** Registering, configuring and unconfiguring *)

Section Configuring.

Context {World : Type}.
Variable rt : Runtime.

Local Open Scope js_scope.

Lemma validate_rule_congr value fd r errors (m m' : Machine World) :
  same_rules_and_world m m' ->
  fst (validate_rule rt value fd r errors m)
  = fst (validate_rule rt value fd r errors m')
  /\ same_rules_and_world (snd (validate_rule rt value fd r errors m))
       (snd (validate_rule rt value fd r errors m')).
Proof.
  intros (Hr & Ht & Hw).
  destruct (JSMap.get (ruleName_of r) (validationRules (self m)))
    as [p|] eqn:G.
  - rewrite (validate_rule_known rt value fd r errors m G).
    rewrite Hr in G.
    rewrite (validate_rule_known rt value fd r errors m' G).
    destruct (call_predicate_machine (ruleName_of r) p value
                (ruleParams_of r) fd m) as (Hs & _ & Hw1 & _).
    destruct (call_predicate_machine (ruleName_of r) p value
                (ruleParams_of r) fd m') as (Hs' & _ & Hw1' & _).
    simpl fst. simpl snd. rewrite Ht, Hw. split; [reflexivity|].
    unfold same_rules_and_world. rewrite Hs, Hs', Hw1, Hw1', Hw. auto.
  - rewrite (validate_rule_unknown rt value fd r errors m G).
    rewrite Hr in G.
    rewrite (validate_rule_unknown rt value fd r errors m' G).
    split; [reflexivity|]. unfold same_rules_and_world. simpl. auto.
Qed.

Lemma forEach_rules_congr value fd (rules : list RuleReference) :
  forall errors (m m' : Machine World),
    same_rules_and_world m m' ->
    fst (forEach rules (validate_rule rt value fd) errors m)
    = fst (forEach rules (validate_rule rt value fd) errors m').
Proof.
  induction rules as [|r rest IH]; intros errors m m' H.
  - reflexivity.
  - simpl. unfold bind.
    destruct (validate_rule_congr value fd r errors H) as [E H'].
    destruct (validate_rule rt value fd r errors m) as [[e1|x] m1];
      destruct (validate_rule rt value fd r errors m') as [[e1'|x'] m1'];
      simpl in *; try discriminate E.
    + injection E as <-. apply IH, H'.
    + exact E.
Qed.

(** The outcome of [validateField] depends on the machine through the
    registry, the templates, the configuration of the field and the
    world. *)
Lemma validateField_congr fieldName value formData (m m' : Machine World) :
  same_rules_and_world m m' ->
  JSMap.get fieldName (fieldConfigs (self m))
  = JSMap.get fieldName (fieldConfigs (self m')) ->
  fst (validateField rt fieldName value formData m)
  = fst (validateField rt fieldName value formData m').
Proof.
  intros H Hcfg. unfold validateField. cbv zeta.
  unfold bind at 1 3, get_this. rewrite <- Hcfg.
  destruct (JSMap.get fieldName (fieldConfigs (self m))) as [[[rules|v]|v]|];
    try reflexivity.
  - unfold bind.
    pose proof (forEach_rules_congr value (formData_default formData)
                  rules [] H) as R.
    destruct (forEach rules _ [] m) as [[e1|x] m1];
      destruct (forEach rules _ [] m') as [[e1'|x'] m1'];
      simpl in *; try discriminate R.
    + now injection R as <-.
    + congruence.
  - destruct (negb (ToBoolean v)); reflexivity.
Qed.

Lemma validateField_unconfigured fieldName value formData (m : Machine World) :
  JSMap.get fieldName (fieldConfigs (self m)) = None ->
  validateField rt fieldName value formData m = (Normal valid_result, m).
Proof.
  intro H. unfold validateField, bind, get_this. cbv zeta. now rewrite H.
Qed.

Lemma JSMap_delete_absent {V : Type} (key : string) (m : JSMap.t V) :
  JSMap.get key m = None -> JSMap.delete key m = m.
Proof.
  induction m as [|[k v] r IH]; simpl; intro H.
  - reflexivity.
  - destruct (String.eqb k key); [discriminate H|]. now rewrite IH.
Qed.

(** X2: in every state reached from a new validator, [resetField(f)]
    returns normally; afterwards [validateField(f, ...)] returns
    [{isValid: true, errors: []}] for every value without invoking a
    predicate or writing a warning, [validateField] of any other field has
    the outcome it had before, the rules are still registered, and when
    [f] was not configured the validator is as it was. *)
Theorem resetField_unconfigures_the_field (cs : list (Call World)) (w : World)
    (f : string) :
  fst (resetField f (reached rt cs w)) = Normal tt
  /\ (forall value formData,
        validateField rt f value formData (snd (resetField f (reached rt cs w)))
        = (Normal valid_result, snd (resetField f (reached rt cs w))))
  /\ (forall g value formData,
        g <> f ->
        fst (validateField rt g value formData
               (snd (resetField f (reached rt cs w))))
        = fst (validateField rt g value formData (reached rt cs w)))
  /\ fst (getAvailableRules (snd (resetField f (reached rt cs w))))
     = fst (getAvailableRules (reached rt cs w))
  /\ (JSMap.get f (fieldConfigs (self (reached rt cs w))) = None ->
      self (snd (resetField f (reached rt cs w))) = self (reached rt cs w)).
Proof.
  split; [reflexivity|]. split; [|split; [|split]].
  - intros value formData. apply validateField_unconfigured. simpl.
    apply JSMap_get_delete_same, reached_unique_configs.
  - intros g value formData Hne. apply validateField_congr.
    + unfold same_rules_and_world. simpl. auto.
    + simpl. apply JSMap_get_delete_other. congruence.
  - reflexivity.
  - intro H. simpl. rewrite (JSMap_delete_absent _ _ H).
    destruct (self (reached rt cs w)). reflexivity.
Qed.

(** Resetting the configured fields one by one, in the order of their
    configuration, empties the store as [clearAll] does. *)
Lemma resetField_each_is_clearAll (configs : JSMap.t FieldConfig) :
  forall m : Machine World,
    fieldConfigs (self m) = configs ->
    after_calls rt (map (@Call_resetField World) (JSMap.keys configs)) m
    = snd (clearAll m).
Proof.
  induction configs as [|[k v] r IH]; intros m H.
  - destruct m as [[rules messages stored] out w log]. simpl in *. now subst.
  - cbn [JSMap.keys map fst after_calls after_call].
    rewrite IH.
    + reflexivity.
    + simpl. rewrite H. simpl. now rewrite String.eqb_refl.
Qed.

(** X3: [clearAll()], on any validator, leaves the state that
    [resetField] called on every configured field leaves; afterwards every
    [validateField] returns [{isValid: true, errors: []}] and [validateForm]
    returns [{isValid: true, fields: {}, errors: []}], both without
    invoking a predicate; the registered rules and their templates are
    kept. *)
Theorem clearAll_leaves_nothing_to_validate (m : Machine World) :
  snd (clearAll m)
  = after_calls rt
      (map (@Call_resetField World) (JSMap.keys (fieldConfigs (self m)))) m
  /\ (forall fieldName value formData,
      validateField rt fieldName value formData (snd (clearAll m))
      = (Normal valid_result, snd (clearAll m)))
  /\ (forall formData,
         validateForm rt formData (snd (clearAll m))
         = (Normal {| form_isValid := true; form_fields := [];
                      form_errors := [] |},
            snd (clearAll m)))
  /\ validationRules (self (snd (clearAll m))) = validationRules (self m)
  /\ errorMessages (self (snd (clearAll m))) = errorMessages (self m).
Proof.
  split.
  - symmetry. now apply resetField_each_is_clearAll.
  - repeat split; reflexivity.
Qed.

(** X4: [configureFields(configs)] returns normally and is
    [configureField] called on the entries of [configs] in order; afterwards
    a field has the last configuration [configs] gives it, or the one it
    had when [configs] does not name it, and the registry is untouched. *)
Theorem configureFields_configures_each_entry (configs : JSObject FieldConfig)
    (m : Machine World) :
  fst (configureFields configs m) = Normal tt
  /\ snd (configureFields configs m)
     = after_calls rt
         (map (fun entry => Call_configureField (fst entry) (snd entry)) configs)
         m
  /\ (forall fieldName,
        JSMap.get fieldName
          (fieldConfigs (self (snd (configureFields configs m))))
        = match last_config fieldName configs with
          | Some config => Some config
          | None => JSMap.get fieldName (fieldConfigs (self m))
          end)
  /\ validationRules (self (snd (configureFields configs m)))
     = validationRules (self m)
  /\ errorMessages (self (snd (configureFields configs m)))
     = errorMessages (self m).
Proof.
  split; [now rewrite configureFields_eq|]. split; [|split].
  - revert m. induction configs as [|entry r IH]; intro m.
    + rewrite configureFields_eq. destruct m as [[? ? ?] ? ? ?]. reflexivity.
    + simpl after_calls. rewrite <- IH.
      rewrite !configureFields_eq. reflexivity.
  - intro fieldName. rewrite configureFields_eq. simpl. apply fold_set_get.
  - rewrite configureFields_eq. auto.
Qed.

Lemma getAvailableRules_eq (m : Machine World) :
  getAvailableRules m = (Normal (JSMap.keys (validationRules (self m))), m).
Proof. reflexivity. Qed.

Lemma after_call_rule_names (c : Call World) (m : Machine World) :
  JSMap.keys (validationRules (self (after_call rt c m)))
  = (JSMap.keys (validationRules (self m)) ++ newly_registered c (self m))%list.
Proof.
  destruct c; unfold after_call, newly_registered.
  - rewrite addValidationRule_self. simpl. rewrite JSMap_keys_set.
    unfold registered.
    destruct (JSMap.get name (validationRules (self m)));
      [now rewrite app_nil_r | reflexivity].
  - now rewrite app_nil_r.
  - destruct (keeps_registry_configureFields configs m) as [-> _].
    now rewrite app_nil_r.
  - now rewrite keeps_this_validateField, app_nil_r.
  - now rewrite keeps_this_validateForm, app_nil_r.
  - now rewrite keeps_this_formatErrorMessage, app_nil_r.
  - now rewrite app_nil_r.
  - now rewrite app_nil_r.
  - now rewrite app_nil_r.
Qed.

Lemma after_calls_rule_names (cs : list (Call World)) :
  forall m : Machine World,
    exists added,
      JSMap.keys (validationRules (self (after_calls rt cs m)))
      = (JSMap.keys (validationRules (self m)) ++ added)%list.
Proof.
  induction cs as [|c r IH]; intro m; simpl.
  - exists []. now rewrite app_nil_r.
  - destruct (IH (after_call rt c m)) as [added E].
    exists (newly_registered c (self m) ++ added)%list.
    rewrite E, after_call_rule_names, app_assoc. reflexivity.
Qed.

(** X5: no public method removes a rule.  After any call,
    [getAvailableRules()] returns the names it returned before, in the same
    order, followed by the name just registered when the call is
    [addValidationRule] with a name that was not registered; so in every
    state reached from a new validator it returns the fourteen built-in
    names first, in the order of [initializeDefaultRules]. *)
Theorem getAvailableRules_only_grows :
  (forall (c : Call World) (m : Machine World),
      exists names,
        fst (getAvailableRules m) = Normal names
        /\ fst (getAvailableRules (after_call rt c m))
           = Normal (names ++ newly_registered c (self m))%list)
  /\ (forall (cs : list (Call World)) (w : World),
         exists added,
           fst (getAvailableRules (reached rt cs w))
           = Normal (builtin_names ++ added)%list).
Proof.
  split.
  - intros c m. exists (JSMap.keys (validationRules (self m))).
    rewrite !getAvailableRules_eq. simpl. split; [reflexivity|].
    now rewrite after_call_rule_names.
  - intros cs w. destruct (after_calls_rule_names cs (new_machine rt w))
      as [added E].
    exists added. rewrite getAvailableRules_eq. simpl. unfold reached.
    rewrite E. destruct (new_machine_self rt w) as (-> & _). reflexivity.
Qed.

End Configuring.

(** ** Objects built by assignment *)

Lemma obj_get_None {V : Type} (key : string) (o : JSObject V) :
  obj_get key o = None <-> ~ In key (map fst o).
Proof. exact (JSMap_get_None key o). Qed.

Lemma obj_insert_index_perm {V : Type} (i : N) (key : string) (v : V)
    (o : JSObject V) :
  Permutation (obj_insert_index i key v o) ((key, v) :: o).
Proof.
  induction o as [|[k w] r IH]; simpl.
  - apply Permutation_refl.
  - destruct (array_index k) as [j|]; [|apply Permutation_refl].
    destruct (j <? i)%N; [|apply Permutation_refl].
    apply Permutation_trans with ((k, w) :: (key, v) :: r).
    + now apply perm_skip.
    + apply perm_swap.
Qed.

Lemma obj_set_fresh_perm {V : Type} (key : string) (v : V) (o : JSObject V) :
  obj_get key o = None -> Permutation (obj_set key v o) ((key, v) :: o).
Proof.
  intro H. unfold obj_set. rewrite H.
  destruct (array_index key) as [i|].
  - apply obj_insert_index_perm.
  - apply Permutation_sym, Permutation_cons_append.
Qed.


Lemma set_results_perm (entries : list (string * FieldValidationResult)) :
  forall results,
    NoDup (map fst results ++ map fst entries) ->
    Permutation (set_results entries results) (results ++ entries).
Proof.
  unfold set_results.
  induction entries as [|[name res] r IH]; intros results H; simpl.
  - rewrite app_nil_r. apply Permutation_refl.
  - assert (obj_get name results = None) as Hfresh.
    { apply obj_get_None. intro Hin.
      apply NoDup_remove_2 in H. apply H. apply in_or_app. now left. }
    pose proof (obj_set_fresh_perm name res results Hfresh) as P.
    apply Permutation_trans with (obj_set name res results ++ r)%list.
    + apply IH.
      apply Permutation_NoDup with (map fst results ++ name :: map fst r)%list;
        [|exact H].
      apply Permutation_trans with ((name :: map fst results) ++ map fst r)%list.
      * simpl. apply Permutation_sym, Permutation_middle.
      * apply Permutation_app_tail.
        change (name :: map fst results)
          with (map fst ((name, res) :: results)).
        apply Permutation_map, Permutation_sym, P.
    + apply Permutation_trans with (((name, res) :: results) ++ r)%list.
      * apply Permutation_app_tail, P.
      * simpl. apply Permutation_middle.
Qed.


(** ** What [getAllErrors] reports *)

Lemma tag_errors_fold (fieldName : string) (failures : list RuleFailure) :
  forall allErrors : list FormError,
    fold_left
      (fun allErrors error =>
         allErrors ++ [{| field := fieldName;
                          error_rule := rule error;
                          error_message := message error;
                          error_params := params error |}])%list
      failures allErrors
    = (allErrors ++ map (tag_error fieldName) failures)%list.
Proof.
  induction failures as [|e r IH]; intro allErrors; simpl.
  - now rewrite app_nil_r.
  - rewrite IH, <- app_assoc. reflexivity.
Qed.

Lemma getAllErrors_flat (results : JSObject FieldValidationResult) :
  getAllErrors results
  = flat_map
      (fun entry =>
         if isValid (snd entry) then []
         else map (tag_error (fst entry)) (errors (snd entry)))
      results.
Proof.
  unfold getAllErrors, Object_entries.
  assert (forall acc,
             fold_left
               (fun allErrors entry =>
                  if negb (isValid (snd entry)) then
                    fold_left
                      (fun allErrors error =>
                         allErrors ++ [{| field := fst entry;
                                          error_rule := rule error;
                                          error_message := message error;
                                          error_params := params error |}])%list
                      (errors (snd entry)) allErrors
                  else allErrors)
               results acc
             = (acc ++ flat_map
                  (fun entry =>
                     if isValid (snd entry) then []
                     else map (tag_error (fst entry)) (errors (snd entry)))
                  results)%list) as H.
  { induction results as [|entry r IH]; intro acc; simpl.
    - now rewrite app_nil_r.
    - rewrite IH. destruct (isValid (snd entry)); simpl.
      + reflexivity.
      + rewrite tag_errors_fold, <- app_assoc. reflexivity. }
  apply (H []).
Qed.

(** X6: [getAllErrors(results)] reports exactly the failures of the fields
    whose result is marked invalid, each with the name of its field, field
    by field in the order [Object.entries] enumerates them; the failures a
    result marked valid may carry are not reported. *)
Theorem getAllErrors_reports_invalid_fields
    (results : JSObject FieldValidationResult) :
  (forall e,
      In e (getAllErrors results)
      <-> exists fieldName result failure,
            In (fieldName, result) results /\ isValid result = false
            /\ In failure (errors result) /\ e = tag_error fieldName failure)
  /\ List.length (getAllErrors results)
     = list_sum
         (map (fun entry => if isValid (snd entry) then 0%nat
                            else List.length (errors (snd entry)))
              results)
  /\ (forall a b : JSObject FieldValidationResult,
        getAllErrors (a ++ b)%list = (getAllErrors a ++ getAllErrors b)%list).
Proof.
  split; [|split].
  - intro e. rewrite getAllErrors_flat, in_flat_map. split.
    + intros [[fieldName result] [Hin He]]. simpl in He.
      destruct (isValid result) eqn:V; [contradiction|].
      apply in_map_iff in He. destruct He as [failure [<- Hf]].
      now exists fieldName, result, failure.
    + intros (fieldName & result & failure & Hin & V & Hf & ->).
      exists (fieldName, result). split; [exact Hin|]. simpl. rewrite V.
      now apply in_map.
  - rewrite getAllErrors_flat.
    induction results as [|entry r IH]; simpl; [reflexivity|].
    rewrite length_app, IH. destruct (isValid (snd entry)); simpl;
      [reflexivity | now rewrite length_map].
  - intros a b. rewrite !getAllErrors_flat. apply flat_map_app.
Qed.

(** ** The result of [validateForm] *)

Section FormResults.

Context {World : Type}.
Variable rt : Runtime.

Local Open Scope js_scope.

Lemma validateField_consistent fieldName value formData
    (m m' : Machine World) result :
  validateField rt fieldName value formData m = (Normal result, m') ->
  consistent_result result.
Proof.
  unfold validateField, bind, get_this, consistent_result. cbv zeta.
  destruct (JSMap.get fieldName (fieldConfigs (self m))) as [[[rules|v]|v]|].
  - destruct (forEach rules _ [] m) as [[errs|e] m1]; [|discriminate].
    unfold ret. intro H. injection H as <- _. simpl.
    rewrite Nat.eqb_eq. split; intro H.
    + now apply length_zero_iff_nil.
    + now rewrite H.
  - discriminate.
  - destruct (negb (ToBoolean v)); [|discriminate].
    intro H. injection H as <- _. simpl. tauto.
  - intro H. injection H as <- _. simpl. tauto.
Qed.

(** The fields whose results the loop of [validateForm] has recorded. *)
Lemma forEach_entries_shape formData (entries : list (string * FieldConfig)) :
  forall results isFormValid (m : Machine World) locals' m',
    forEach entries (validate_entry rt formData) (results, isFormValid) m
    = (Normal locals', m') ->
    exists rs,
      Forall2
        (fun entry result =>
           consistent_result result
           /\ exists mk,
                self mk = self m
                /\ fst (validateField rt (fst entry) (prop (fst entry) formData)
                          (Some formData) mk) = Normal result)
        entries rs
      /\ fst locals' = set_results (combine (map fst entries) rs) results
      /\ snd locals' = (forallb isValid rs && isFormValid).
Proof.
  induction entries as [|entry rest IH];
    intros results isFormValid m locals' m' H.
  - simpl in H. injection H as <- _. exists []. simpl.
    repeat split. constructor.
  - cbn [forEach] in H. unfold bind in H. rewrite validate_entry_eq in H.
    pose proof (keeps_this_validateField rt (fst entry)
                  (prop (fst entry) formData) (Some formData) m) as K.
    destruct (validateField rt (fst entry) (prop (fst entry) formData)
                (Some formData) m) as [[res|e] m1] eqn:E; [|discriminate H].
    simpl in K.
    apply IH in H. destruct H as (rs & HF & Hres & Hok).
    exists (res :: rs). repeat split.
    + constructor.
      * split; [exact (validateField_consistent _ _ _ _ E)|].
        exists m. split; [reflexivity | now rewrite E].
      * eapply Forall2_impl; [|exact HF]. simpl.
        intros a b [Hc [mk [Hs Hv]]]. split; [exact Hc|].
        exists mk. split; [congruence | exact Hv].
    + exact Hres.
    + rewrite Hok. simpl. destruct (isValid res); simpl;
        [reflexivity | now rewrite andb_false_r].
Qed.

Lemma validateForm_shape formData (m m' : Machine World) r :
  validateForm rt formData m = (Normal r, m') ->
  exists rs,
    Forall2
      (fun entry result =>
         consistent_result result
         /\ exists mk,
              self mk = self m
              /\ fst (validateField rt (fst entry) (prop (fst entry) formData)
                        (Some formData) mk) = Normal result)
      (JSMap.entries (fieldConfigs (self m))) rs
    /\ form_fields r
       = set_results (combine (JSMap.keys (fieldConfigs (self m))) rs) []
    /\ form_isValid r = forallb isValid rs
    /\ form_errors r = getAllErrors (form_fields r).
Proof.
  unfold validateForm, bind at 1, get_this. unfold bind.
  destruct (forEach (JSMap.entries (fieldConfigs (self m)))
              (validate_entry rt formData) ([], true) m)
    as [[[results ok]|e] m1] eqn:E; [|discriminate].
  unfold ret. intro H. injection H as <- _.
  apply forEach_entries_shape in E. destruct E as (rs & HF & Hres & Hok).
  exists rs. simpl in *. repeat split; auto.
  now rewrite Hok, andb_true_r.
Qed.

Lemma Forall2_length_eq {A B : Type} (P : A -> B -> Prop) l l' :
  Forall2 P l l' -> List.length l = List.length l'.
Proof. induction 1; simpl; congruence. Qed.

Lemma map_fst_combine {A B : Type} (l : list A) (l' : list B) :
  List.length l = List.length l' -> map fst (combine l l') = l.
Proof.
  revert l'. induction l as [|a l IH]; intros [|b l'] H; simpl in *;
    try discriminate; [reflexivity|]. f_equal. apply IH. congruence.
Qed.








End FormResults.

(** ** [validateForm] and [validateField] *)

Section FormAndField.

Context {World : Type}.
Variable rt : Runtime.

Local Open Scope js_scope.

Lemma obj_get_In {V : Type} (key : string) (v : V) (o : JSObject V) :
  NoDup (map fst o) -> In (key, v) o -> obj_get key o = Some v.
Proof.
  induction o as [|[k w] r IH]; simpl; intros Hnd Hin.
  - contradiction.
  - inversion Hnd as [|? ? Hk Hr]; subst. destruct Hin as [E|Hin].
    + injection E as -> ->. now rewrite String.eqb_refl.
    + destruct (String.eqb k key) eqn:E.
      * apply String.eqb_eq in E. subst k. elim Hk.
        change key with (fst (key, v)). now apply in_map.
      * now apply IH.
Qed.

Lemma Forall2_combine_In {A B : Type} (P : A -> B -> Prop) (f : A -> string)
    (l : list A) (rs : list B) :
  Forall2 P l rs ->
  forall a, In a l -> exists b, In (f a, b) (combine (map f l) rs) /\ P a b.
Proof.
  induction 1 as [|x y l rs Hxy HF IH]; intros a Hin.
  - contradiction.
  - destruct Hin as [<-|Hin].
    + exists y. split; [now left | exact Hxy].
    + destruct (IH a Hin) as [b [Hb Pb]]. exists b. split; [now right | exact Pb].
Qed.

Lemma forEach_entries_throw formData (entries : list (string * FieldConfig)) :
  forall locals (m : Machine World) e m',
    forEach entries (validate_entry rt formData) locals m = (Throw e, m') ->
    exists entry mk,
      In entry entries /\ self mk = self m
      /\ fst (validateField rt (fst entry) (prop (fst entry) formData)
                (Some formData) mk) = Throw e.
Proof.
  induction entries as [|entry rest IH]; intros [results ok] m e m' H.
  - discriminate H.
  - cbn [forEach] in H. unfold bind in H. rewrite validate_entry_eq in H.
    pose proof (keeps_this_validateField rt (fst entry)
                  (prop (fst entry) formData) (Some formData) m) as K.
    destruct (validateField rt (fst entry) (prop (fst entry) formData)
                (Some formData) m) as [[res|e1] m1] eqn:E.
    + simpl in K. apply IH in H. destruct H as (entry' & mk & Hin & Hs & Hv).
      exists entry', mk. split; [now right|]. split; [congruence | exact Hv].
    + injection H as <- _. exists entry, m.
      split; [now left|]. split; [reflexivity | now rewrite E].
Qed.

(** X9: with pure predicates, in a state reached from a new validator,
    [validateForm(formData)] gives every configured field the result
    [validateField(name, formData[name], formData)] returns for it; and it
    throws only what [validateField] throws for some configured field. *)
Theorem validateForm_agrees_with_validateField
    (cs : list (Call World)) (w : World) formData :
  (forall name p,
      JSMap.get name (validationRules (self (reached rt cs w))) = Some p ->
      pure_predicate p) ->
  (forall r m',
      validateForm rt formData (reached rt cs w) = (Normal r, m') ->
      forall fieldName,
        In fieldName (JSMap.keys (fieldConfigs (self (reached rt cs w)))) ->
        exists result,
          obj_get fieldName (form_fields r) = Some result
          /\ fst (validateField rt fieldName (prop fieldName formData)
                    (Some formData) (reached rt cs w)) = Normal result)
  /\ (forall e m',
         validateForm rt formData (reached rt cs w) = (Throw e, m') ->
         exists fieldName,
           In fieldName (JSMap.keys (fieldConfigs (self (reached rt cs w))))
           /\ fst (validateField rt fieldName (prop fieldName formData)
                     (Some formData) (reached rt cs w)) = Throw e).
Proof.
  intro Hpure. pose proof (reached_unique_configs rt cs w) as Hnd.
  set (m := reached rt cs w) in *. split.
  - intros r m' H fieldName Hin.
    apply validateForm_shape in H. destruct H as (rs & HF & Hfields & _ & _).
    apply in_map_iff in Hin. destruct Hin as [entry [<- Hin]].
    destruct (Forall2_combine_In fst HF entry Hin)
      as (result & Hcomb & _ & mk & Hs & Hv).
    exists result. split.
    + assert (List.length (JSMap.keys (fieldConfigs (self m)))
              = List.length rs) as Hlen.
      { unfold JSMap.keys. rewrite length_map. exact (Forall2_length_eq HF). }
      pose proof (set_results_perm
                    (combine (JSMap.keys (fieldConfigs (self m))) rs) []) as P.
      simpl in P. rewrite map_fst_combine in P by exact Hlen.
      specialize (P Hnd). rewrite <- Hfields in P.
      apply obj_get_In.
      * apply Permutation_NoDup with (JSMap.keys (fieldConfigs (self m)));
          [|exact Hnd].
        rewrite <- (map_fst_combine _ rs Hlen) at 1.
        apply Permutation_map, Permutation_sym, P.
      * eapply Permutation_in; [apply Permutation_sym, P | exact Hcomb].
    + rewrite <- Hv. apply validateField_same_result; [exact Hpure | congruence].
  - intros e m' H. unfold validateForm, bind at 1, get_this in H.
    unfold bind in H.
    destruct (forEach (JSMap.entries (fieldConfigs (self m)))
                (validate_entry rt formData) ([], true) m)
      as [[[results ok]|e1] m1] eqn:E; [discriminate H|].
    injection H as <- _. apply forEach_entries_throw in E.
    destruct E as (entry & mk & Hin & Hs & Hv).
    exists (fst entry). split.
    + unfold JSMap.keys. now apply in_map.
    + rewrite <- Hv. apply validateField_same_result; [exact Hpure | congruence].
Qed.


(** X11: register a rule, configure a field with a bare reference to it,
    and validate: when the predicate returns a truthy value the result is
    [{isValid: true, errors: []}]; when it returns a falsy value the result
    has exactly one failure, with the name of the rule, no parameters, and
    the registered template as message (['Invalid value'] when that
    template is empty); the predicate is invoked once. *)
Theorem registered_rule_round_trip name (p : Predicate World) template
    fieldName value formData returned (m : Machine World) :
  fst (p value [] (formData_default formData) (world m)) = Normal returned ->
  fst (validateField rt fieldName value formData
         (with_field fieldName (ConfigObject (RulesArray [RuleName name]))
            (with_rule name p template m)))
  = Normal (if ToBoolean returned then {| isValid := true; errors := [] |}
            else {| isValid := false;
                    errors :=
                      [{| rule := name;
                          message := if String.eqb template EmptyString
                                     then "Invalid value" else template;
                          params := [] |}] |})
  /\ invocations
       (snd (validateField rt fieldName value formData
               (with_field fieldName (ConfigObject (RulesArray [RuleName name]))
                  (with_rule name p template m))))
     = (invocations m
        ++ [invocation_of value (formData_default formData) (RuleName name) p
              (world m)])%list.
Proof.
  intro Hret.
  set (m1 := with_field fieldName (ConfigObject (RulesArray [RuleName name]))
               (with_rule name p template m)).
  assert (JSMap.get fieldName (fieldConfigs (self m1))
          = Some (ConfigObject (RulesArray [RuleName name]))) as Hcfg.
  { unfold m1, with_field. rewrite configureField_self. simpl.
    apply JSMap_get_set_same. }
  assert (JSMap.get name (validationRules (self m1)) = Some p) as Hp.
  { unfold m1, with_field, with_rule.
    rewrite configureField_self, addValidationRule_self. simpl.
    apply JSMap_get_set_same. }
  assert (JSMap.get name (errorMessages (self m1)) = Some template) as Ht.
  { unfold m1, with_field, with_rule.
    rewrite configureField_self, addValidationRule_self. simpl.
    apply JSMap_get_set_same. }
  assert (world m1 = world m /\ invocations m1 = invocations m) as [Hw Hi]
    by (split; reflexivity).
  unfold validateField. cbv zeta. unfold bind at 1 3, get_this. rewrite Hcfg.
  unfold bind. cbn [forEach]. unfold bind.
  rewrite (validate_rule_known rt value (formData_default formData)
             (RuleName name) [] m1 (p := p)) by exact Hp.
  destruct (call_predicate_machine name p value [] (formData_default formData)
              m1) as (_ & _ & _ & Hinv).
  cbn [ruleName_of ruleParams_of]. rewrite Hw, Hret. split.
  - destruct (ToBoolean returned); [reflexivity|].
    unfold failure_message. cbn [customMessage_of ruleParams_of format_steps].
    unfold template_of. cbn [ruleName_of]. rewrite Ht.
    destruct (String.eqb template EmptyString); reflexivity.
  - assert (invocations
              (snd (call_predicate name p value [] (formData_default formData) m1))
            = (invocations m
               ++ [invocation_of value (formData_default formData)
                     (RuleName name) p (world m)])%list) as Hinv'.
    { rewrite Hinv, Hi, Hw. reflexivity. }
    destruct (ToBoolean returned); [exact Hinv'|].
    destruct (failure_message rt (errorMessages (self m1)) (RuleName name));
      exact Hinv'.
Qed.

End FormAndField.

(** ** The rule [required] *)

Lemma trimStart_empty (s : string) :
  trimStart s = EmptyString <-> string_forallb is_white_space s = true.
Proof.
  induction s as [|c r IH]; simpl.
  - tauto.
  - destruct (is_white_space c); simpl; [exact IH|].
    split; discriminate.
Qed.

Lemma trimStart_white (s : string) :
  string_forallb is_white_space (trimStart s)
  = string_forallb is_white_space s.
Proof.
  induction s as [|c r IH]; simpl.
  - reflexivity.
  - destruct (is_white_space c) eqn:E; simpl; [exact IH|].
    now rewrite E.
Qed.

Lemma string_rev_onto_forallb (p : ascii -> bool) (s acc : string) :
  string_forallb p (string_rev_onto s acc)
  = string_forallb p s && string_forallb p acc.
Proof.
  revert acc. induction s as [|c r IH]; intro acc; simpl.
  - reflexivity.
  - rewrite IH. simpl. destruct (p c), (string_forallb p r); reflexivity.
Qed.

Lemma string_rev_onto_empty (s acc : string) :
  string_rev_onto s acc = EmptyString -> s = EmptyString /\ acc = EmptyString.
Proof.
  revert acc. induction s as [|c r IH]; intro acc; simpl; intro H.
  - auto.
  - apply IH in H. destruct H as [_ H]. discriminate H.
Qed.

Lemma trim_empty (s : string) :
  trim s = EmptyString <-> string_forallb is_white_space s = true.
Proof.
  unfold trim, trimEnd, string_rev. split.
  - intro H. apply string_rev_onto_empty in H. destruct H as [H _].
    apply trimStart_empty in H.
    rewrite string_rev_onto_forallb in H. simpl in H.
    rewrite andb_true_r, trimStart_white in H. exact H.
  - intro H.
    assert (trimStart (string_rev_onto (trimStart s) EmptyString)
            = EmptyString) as E.
    { apply trimStart_empty. rewrite string_rev_onto_forallb. simpl.
      now rewrite andb_true_r, trimStart_white. }
    now rewrite E.
Qed.

Lemma trim_empty_eqb (s : string) :
  String.eqb (trim s) EmptyString = string_forallb is_white_space s.
Proof.
  destruct (string_forallb is_white_space s) eqn:E.
  - apply String.eqb_eq, trim_empty, E.
  - apply String.eqb_neq. intro H. apply trim_empty in H. congruence.
Qed.

Lemma Number_toString_visible (n : JSNumber) :
  string_forallb is_white_space (Number_toString n) = false.
Proof.
  destruct n as [|[|]|z]; try reflexivity.
  unfold Number_toString.
  destruct (Z.to_int z) as [u|u]; [|reflexivity].
  destruct u; reflexivity.
Qed.

(** X12: [required] never throws; it fails [null], [undefined] and the
    strings made of white space only (the empty string among them), and
    passes every other value: every string with a character that is not
    white space, every number, [0] and [NaN] included, and both booleans,
    so the value [false] of an unchecked checkbox passes. *)
Theorem required_fails_only_absent_or_blank_values :
  (forall params formData,
      rule_required VUndefined params formData = Normal (VBool false)
      /\ rule_required VNull params formData = Normal (VBool false))
  /\ (forall b params formData,
         rule_required (VBool b) params formData = Normal (VBool true))
  /\ (forall n params formData,
         rule_required (VNumber n) params formData = Normal (VBool true))
  /\ (forall s params formData,
         rule_required (VString s) params formData
         = Normal (VBool (negb (string_forallb is_white_space s)))).
Proof.
  split; [|split; [|split]].
  - intros. split; reflexivity.
  - intros [|] params formData; reflexivity.
  - intros n params formData. rewrite rule_required_eq. cbn [present ToString].
    now rewrite trim_empty_eqb, Number_toString_visible.
  - intros s params formData. rewrite rule_required_eq. cbn [present ToString].
    now rewrite trim_empty_eqb.
Qed.

(** ** The Luhn check of the rule [creditCard] *)

Lemma digit_range (c : ascii) :
  is_digit c = true -> (0 <= Z.of_nat (nat_of_ascii c - 48) <= 9)%Z.
Proof.
  unfold is_digit. intro H. apply andb_true_iff in H. destruct H as [H1 H2].
  apply Nat.leb_le in H1, H2. lia.
Qed.

Lemma digit_injective (c1 c2 : ascii) :
  is_digit c1 = true -> is_digit c2 = true ->
  Z.of_nat (nat_of_ascii c1 - 48) = Z.of_nat (nat_of_ascii c2 - 48) ->
  c1 = c2.
Proof.
  unfold is_digit. intros H1 H2 E.
  apply andb_true_iff in H1, H2. destruct H1 as [H1 _], H2 as [H2 _].
  apply Nat.leb_le in H1, H2.
  rewrite <- (ascii_nat_embedding c1), <- (ascii_nat_embedding c2).
  f_equal. lia.
Qed.

Lemma string_forallb_app (p : ascii -> bool) (a b : string) :
  string_forallb p (a ++ b) = string_forallb p a && string_forallb p b.
Proof.
  induction a as [|c a IH]; simpl; [reflexivity|].
  now rewrite IH, andb_assoc.
Qed.

Lemma remove_chars_app (p : ascii -> bool) (a b : string) :
  remove_chars p (a ++ b) = remove_chars p a ++ remove_chars p b.
Proof.
  induction a as [|c a IH]; simpl; [reflexivity|].
  destruct (p c); simpl; now rewrite IH.
Qed.

Lemma digit_is_kept (c : ascii) :
  is_digit c = true -> is_space_or_dash c = false.
Proof.
  unfold is_digit, is_space_or_dash, is_white_space. intro H.
  apply andb_true_iff in H. destruct H as [H1 H2].
  apply Nat.leb_le in H1, H2.
  assert (Ascii.eqb c "-" = false) as E.
  { apply Ascii.eqb_neq. intros ->. vm_compute in H1. lia. }
  rewrite E, orb_false_r.
  destruct (nat_of_ascii c) as [|n] eqn:N; [lia|].
  do 47 (destruct n as [|n]; [lia|]).
  do 10 (destruct n as [|n]; [reflexivity|]). lia.
Qed.

Lemma digits_of_app (a b : string) :
  digits_of (a ++ b) = (digits_of a ++ digits_of b)%list.
Proof. induction a as [|c a IH]; simpl; [reflexivity | now rewrite IH]. Qed.

Lemma digits_of_length (s : string) :
  List.length (digits_of s) = String.length s.
Proof. induction s as [|c s IH]; simpl; [reflexivity | now rewrite IH]. Qed.

Lemma parseInt_charAt_digit (s : string) :
  string_forallb is_digit s = true ->
  forall i, (i < String.length s)%nat ->
  parseInt_charAt s i = Some (nth i (digits_of s) 0%Z).
Proof.
  unfold parseInt_charAt.
  induction s as [|c s IH]; simpl; intros H i Hi.
  - lia.
  - apply andb_true_iff in H. destruct H as [Hc Hs].
    destruct i as [|i]; simpl.
    + now rewrite Hc.
    + apply IH; [exact Hs | lia].
Qed.

Lemma firstn_succ {A : Type} (d : A) (l : list A) (i : nat) :
  (i < List.length l)%nat ->
  firstn (S i) l = (firstn i l ++ [nth i l d])%list.
Proof.
  revert i. induction l as [|x l IH]; simpl; intros i H.
  - lia.
  - destruct i as [|i]; simpl; [reflexivity|].
    f_equal. apply IH. lia.
Qed.

(** The loop adds up the Luhn terms of the digits, last to first. *)
Lemma luhn_loop_sum (s : string) :
  string_forallb is_digit s = true ->
  forall n acc isEven,
    (n <= String.length s)%nat ->
    luhn_loop s n (Some acc) isEven
    = Some (acc + luhn_sum (rev (firstn n (digits_of s))) isEven)%Z.
Proof.
  intro H. induction n as [|i IH]; intros acc isEven Hn.
  - simpl. now rewrite Z.add_0_r.
  - cbn [luhn_loop]. cbv zeta.
    rewrite (parseInt_charAt_digit s H) by lia.
    rewrite (firstn_succ 0%Z) by (rewrite digits_of_length; lia).
    rewrite rev_app_distr. cbn [rev app luhn_sum].
    set (d := nth i (digits_of s) 0%Z).
    assert ((if isEven
             then
               if num_gt (num_mul (Some d) (Some 2%Z)) 9
               then num_sub (num_mul (Some d) (Some 2%Z)) (Some 9%Z)
               else num_mul (Some d) (Some 2%Z)
             else Some d) = Some (luhn_term isEven d)) as E.
    { unfold luhn_term. destruct isEven; [|reflexivity]. simpl.
      destruct (9 <? d * 2)%Z; reflexivity. }
    rewrite E. cbn [num_add]. rewrite IH by lia. f_equal. lia.
Qed.

Lemma luhn_sum_app (x y : list Z) (isEven : bool) :
  luhn_sum (x ++ y) isEven
  = (luhn_sum x isEven + luhn_sum y (Nat.iter (List.length x) negb isEven))%Z.
Proof.
  revert isEven. induction x as [|d x IH]; intro isEven; simpl.
  - reflexivity.
  - rewrite IH.
    assert (Nat.iter (List.length x) negb (negb isEven)
            = negb (Nat.iter (List.length x) negb isEven)) as E.
    { clear. induction (List.length x) as [|n IHn]; simpl;
        [reflexivity | now rewrite IHn]. }
    rewrite E. lia.
Qed.

(** Two digits with the same Luhn term modulo ten are the same. *)
Lemma luhn_term_injective (isEven : bool) (d1 d2 k : Z) :
  (0 <= d1 <= 9)%Z -> (0 <= d2 <= 9)%Z ->
  (luhn_term isEven d1 - luhn_term isEven d2 = 10 * k)%Z -> d1 = d2.
Proof.
  unfold luhn_term. intros H1 H2.
  destruct isEven; [|lia].
  destruct (9 <? d1 * 2)%Z eqn:E1; destruct (9 <? d2 * 2)%Z eqn:E2;
    try apply Z.ltb_lt in E1; try apply Z.ltb_ge in E1;
    try apply Z.ltb_lt in E2; try apply Z.ltb_ge in E2; lia.
Qed.

Lemma creditCard_sum (s : string) :
  all_digits (remove_chars is_space_or_dash s) = true ->
  exists params formData,
    rule_creditCard (VString s) params formData
    = Normal (VBool (Z.eqb
                (Z.rem (luhn_sum
                          (rev (digits_of (remove_chars is_space_or_dash s)))
                          false) 10) 0))
    /\ forall params' formData',
         rule_creditCard (VString s) params' formData'
         = rule_creditCard (VString s) params formData.
Proof.
  intro H. exists [], []. split; [|reflexivity].
  unfold rule_creditCard.
  assert (ToBoolean (VString s) = true) as T.
  { destruct s; [discriminate H | reflexivity]. }
  rewrite T. cbn [negb]. cbv zeta. rewrite H. cbn [negb].
  unfold all_digits in H. apply andb_true_iff in H. destruct H as [_ H].
  rewrite (luhn_loop_sum _ H) by lia.
  rewrite <- digits_of_length, firstn_all. reflexivity.
Qed.

(** X13: the rule [creditCard] detects every wrong digit: when a card
    number passes, the text that differs from it in one digit, at any
    place and whatever the spaces and dashes around, fails. *)
Theorem creditCard_detects_a_wrong_digit (a b : string) (c1 c2 : ascii)
    params formData params' formData' :
  is_digit c1 = true -> is_digit c2 = true -> c1 <> c2 ->
  rule_creditCard (VString (a ++ String c1 b)) params formData
  = Normal (VBool true) ->
  rule_creditCard (VString (a ++ String c2 b)) params' formData'
  = Normal (VBool false).
Proof.
  intros D1 D2 Hne H1.
  set (A := remove_chars is_space_or_dash a).
  set (B := remove_chars is_space_or_dash b).
  assert (forall c, is_digit c = true ->
            remove_chars is_space_or_dash (a ++ String c b) = A ++ String c B)
    as Hstrip.
  { intros c Dc. rewrite remove_chars_app. simpl.
    now rewrite (digit_is_kept c Dc). }
  assert (all_digits (A ++ String c1 B) = true) as G1.
  { rewrite <- (Hstrip c1 D1).
    destruct (all_digits (remove_chars is_space_or_dash (a ++ String c1 b)))
      eqn:E; [reflexivity|].
    unfold rule_creditCard in H1.
    assert (ToBoolean (VString (a ++ String c1 b)) = true) as T
      by (destruct a; reflexivity).
    rewrite T in H1. cbn [negb] in H1. cbv zeta in H1. rewrite E in H1.
    discriminate H1. }
  assert (string_forallb is_digit A = true
          /\ string_forallb is_digit B = true) as [DA DB].
  { unfold all_digits in G1. apply andb_true_iff in G1. destruct G1 as [_ G1].
    rewrite string_forallb_app in G1. simpl in G1.
    apply andb_true_iff in G1. destruct G1 as [GA G1].
    apply andb_true_iff in G1. tauto. }
  assert (all_digits (A ++ String c2 B) = true) as G2.
  { unfold all_digits. apply andb_true_iff. split.
    - destruct A; reflexivity.
    - rewrite string_forallb_app. simpl. now rewrite DA, D2, DB. }
  assert (forall c,
             rev (digits_of (A ++ String c B))
             = (rev (digits_of B)
                ++ Z.of_nat (nat_of_ascii c - 48) :: rev (digits_of A))%list)
    as Hrev.
  { intro c. rewrite digits_of_app. simpl. rewrite rev_app_distr. simpl.
    now rewrite <- app_assoc. }
  rewrite <- (Hstrip c1 D1) in G1. rewrite <- (Hstrip c2 D2) in G2.
  destruct (creditCard_sum _ G1) as (p1 & f1 & E1 & I1).
  destruct (creditCard_sum _ G2) as (p2 & f2 & E2 & I2).
  rewrite (I1 params formData), E1 in H1.
  rewrite (I2 params' formData'), E2.
  rewrite (Hstrip c1 D1), Hrev in H1. rewrite (Hstrip c2 D2), Hrev.
  rewrite luhn_sum_app in *. cbn [luhn_sum] in *.
  injection H1 as H1. apply Z.eqb_eq in H1.
  f_equal. f_equal. apply Z.eqb_neq. intro H2.
  apply Z.rem_divide in H1, H2; try lia.
  destruct H1 as [k1 H1], H2 as [k2 H2].
  apply Hne, (digit_injective c1 c2 D1 D2).
  apply (@luhn_term_injective
           (Nat.iter (List.length (rev (digits_of B))) negb false)
           _ _ (k1 - k2)%Z (digit_range c1 D1) (digit_range c2 D2)).
  lia.
Qed.

(** ** The check digits of the rule [cpf] *)

Lemma parseInt_charAt_app_l (a x : string) (i : nat) :
  (i < String.length a)%nat ->
  parseInt_charAt (a ++ x) i = parseInt_charAt a i.
Proof.
  intro H. unfold parseInt_charAt.
  now rewrite <- (append_correct1 a x i H).
Qed.

Lemma parseInt_charAt_app_at (a b : string) (c : ascii) (n : nat) :
  is_digit c = true -> n = String.length a ->
  parseInt_charAt (a ++ String c b) n
  = Some (Z.of_nat (nat_of_ascii c - 48)).
Proof.
  intros D ->. unfold parseInt_charAt.
  change (String.length a) with (0 + String.length a)%nat.
  rewrite <- (append_correct2 a (String c b) 0). simpl. now rewrite D.
Qed.

(** The sums read the characters before their bound only. *)
Lemma cpf_loop_prefix (a x y : string) (weight : Z) :
  forall count i sum,
    (i + count <= String.length a)%nat ->
    cpf_loop (a ++ x) weight i count sum
    = cpf_loop (a ++ y) weight i count sum.
Proof.
  induction count as [|k IH]; intros i sum H; simpl; [reflexivity|].
  rewrite !parseInt_charAt_app_l by lia. apply IH. lia.
Qed.

Lemma rule_cpf_string (s : string) params formData :
  s <> EmptyString ->
  rule_cpf (VString s) params formData
  = Normal (VBool (cpf_passes (remove_chars is_not_digit s))).
Proof.
  intro H. unfold rule_cpf, cpf_passes.
  assert (ToBoolean (VString s) = true) as T
    by (destruct s; [congruence | reflexivity]).
  rewrite T. cbn [negb]. cbv zeta.
  destruct (Nat.eqb _ 11); cbn [negb andb]; [|reflexivity].
  destruct (same_digit_eleven_times _); cbn [negb andb]; [reflexivity|].
  destruct (num_eq _ (parseInt_charAt _ 9)); cbn [negb andb]; reflexivity.
Qed.

Lemma num_eq_true (a b : option Z) : num_eq a b = true -> a = b.
Proof.
  destruct a, b; simpl; try discriminate.
  intro H. apply Z.eqb_eq in H. now subst.
Qed.

(** X14: the rule [cpf] detects a wrong check digit: when a CPF number
    passes, the text that differs from it in one of its two last digits
    fails, whatever the punctuation around. *)
Theorem cpf_detects_a_wrong_check_digit (a b : string) (c1 c2 : ascii)
    params formData params' formData' :
  is_digit c1 = true -> is_digit c2 = true -> c1 <> c2 ->
  (9 <= String.length (remove_chars is_not_digit a))%nat ->
  rule_cpf (VString (a ++ String c1 b)) params formData
  = Normal (VBool true) ->
  rule_cpf (VString (a ++ String c2 b)) params' formData'
  = Normal (VBool false).
Proof.
  intros D1 D2 Hne Hlen H1.
  rewrite rule_cpf_string in * by (destruct a; discriminate).
  injection H1 as H1. f_equal. f_equal.
  set (A := remove_chars is_not_digit a) in *.
  set (B := remove_chars is_not_digit b).
  assert (forall c, is_digit c = true ->
            remove_chars is_not_digit (a ++ String c b) = A ++ String c B)
    as Hstrip.
  { intros c Dc. rewrite remove_chars_app. simpl.
    unfold is_not_digit at 2. now rewrite Dc. }
  rewrite (Hstrip c1 D1) in H1. rewrite (Hstrip c2 D2).
  apply not_true_is_false. intro H2.
  unfold cpf_passes in H1, H2.
  apply andb_true_iff in H1. destruct H1 as [H1 H].
  apply andb_true_iff in H1. destruct H1 as [H1 H0].
  apply andb_true_iff in H1. destruct H1 as [H1 H3].
  apply andb_true_iff in H2. destruct H2 as [H2 H4].
  apply andb_true_iff in H2. destruct H2 as [H2 H5].
  apply andb_true_iff in H2. destruct H2 as [H2 H6].
  apply Nat.eqb_eq in H1. rewrite string_length_app in H1. simpl in H1.
  apply Hne, (@digit_injective c1 c2 D1 D2).
  assert (String.length A = 9 \/ String.length A = 10)%nat as [L|L] by lia.
  - rewrite (@parseInt_charAt_app_at A B c1 9 D1) in H0 by congruence.
    rewrite (@parseInt_charAt_app_at A B c2 9 D2) in H5 by congruence.
    rewrite (@cpf_loop_prefix A (String c1 B) (String c2 B) 10 9 0) in H0
      by lia.
    apply num_eq_true in H0, H5. congruence.
  - rewrite (@parseInt_charAt_app_at A B c1 10 D1) in H by congruence.
    rewrite (@parseInt_charAt_app_at A B c2 10 D2) in H4 by congruence.
    rewrite (@cpf_loop_prefix A (String c1 B) (String c2 B) 11 10 0) in H
      by lia.
    apply num_eq_true in H, H4. congruence.
Qed.

(** ** The rule [nitValido] *)

Lemma remove_not_digit_length (s : string) :
  String.length (remove_chars is_not_digit s) = count_digits s.
Proof.
  induction s as [|c s IH]; simpl; [reflexivity|].
  unfold is_not_digit at 1. destruct (is_digit c); simpl; now rewrite IH.
Qed.

Lemma remove_not_digit_digits (s : string) :
  string_forallb is_digit (remove_chars is_not_digit s) = true.
Proof.
  induction s as [|c s IH]; simpl; [reflexivity|].
  unfold is_not_digit at 1. destruct (is_digit c) eqn:E; simpl; [|exact IH].
  now rewrite E, IH.
Qed.

Lemma count_digits_app (a b : string) :
  count_digits (a ++ b) = (count_digits a + count_digits b)%nat.
Proof.
  induction a as [|c a IH]; simpl; [reflexivity|]. rewrite IH. lia.
Qed.

(** X15: [nitValido] looks at the digits of a text only: a text that is
    not empty passes iff it holds between eight and fifteen digits,
    whatever else it holds and wherever; a value that is no string and not
    falsy makes it throw a [TypeError]. *)
Theorem nitValido_counts_the_digits :
  (forall s params formData,
      s <> EmptyString ->
      rule_nitValido (VString s) params formData
      = Normal (VBool ((8 <=? count_digits s)%nat
                       && (count_digits s <=? 15)%nat)))
  /\ (forall a b c params formData,
         is_digit c = false -> (a ++ b)%string <> EmptyString ->
         rule_nitValido (VString (a ++ String c b)) params formData
         = rule_nitValido (VString (a ++ b)) params formData)
  /\ (forall value params formData,
         ToBoolean value = true ->
         (forall s, value <> VString s) ->
         rule_nitValido value params formData = Throw TypeError).
Proof.
  assert (forall s params formData,
             s <> EmptyString ->
             rule_nitValido (VString s) params formData
             = Normal (VBool ((8 <=? count_digits s)%nat
                              && (count_digits s <=? 15)%nat))) as Hcount.
  { intros s params formData H. unfold rule_nitValido.
    assert (ToBoolean (VString s) = true) as T
      by (destruct s; [congruence | reflexivity]).
    rewrite T. cbn [negb]. cbv zeta. unfold eight_to_fifteen_digits.
    rewrite remove_not_digit_digits, remove_not_digit_length, andb_true_r.
    destruct (count_digits s <? 8)%nat eqn:E.
    - apply Nat.ltb_lt in E.
      assert ((8 <=? count_digits s)%nat = false) as ->
        by (apply Nat.leb_gt; exact E).
      reflexivity.
    - reflexivity. }
  split; [exact Hcount|]. split.
  - intros a b c params formData D H.
    rewrite !Hcount by (try exact H; destruct a; discriminate).
    rewrite !count_digits_app. simpl. rewrite D. reflexivity.
  - intros value params formData T H. unfold rule_nitValido. rewrite T.
    destruct value; try reflexivity. now destruct (H s).
Qed.

(** ** The theorems at work *)



Lemma validateForm_agrees_with_validateField_witness :
  (forall name p,
      JSMap.get name
        (validationRules (self (reached bare_runtime sample_calls tt)))
      = Some p ->
      pure_predicate p)
  /\ (forall r m',
        validateForm bare_runtime sample_formData
          (reached bare_runtime sample_calls tt) = (Normal r, m') ->
        forall fieldName,
          In fieldName
            (JSMap.keys
               (fieldConfigs (self (reached bare_runtime sample_calls tt)))) ->
          exists result,
            obj_get fieldName (form_fields r) = Some result
            /\ fst (validateField bare_runtime fieldName
                      (prop fieldName sample_formData) (Some sample_formData)
                      (reached bare_runtime sample_calls tt))
               = Normal result).
Proof.
  assert (forall name p,
             JSMap.get name
               (validationRules (self (reached bare_runtime sample_calls tt)))
             = Some p ->
             pure_predicate p) as Hpure
    by exact (@builtins_are_pure unit bare_runtime (blank_machine tt)).
  split; [exact Hpure|].
  exact (proj1 (@validateForm_agrees_with_validateField unit bare_runtime
                  sample_calls tt sample_formData Hpure)).
Defined.


Lemma registered_rule_round_trip_witness :
  fst (constant_predicate (VBool false) (VString "x") []
         (formData_default None) tt)
  = Normal (VBool false)
  /\ fst (validateField bare_runtime "age" (VString "x") None
            (with_field "age" (ConfigObject (RulesArray [RuleName "never"]))
               (with_rule "never" (constant_predicate (VBool false))
                  "Never valid" (new_machine bare_runtime tt))))
     = Normal {| isValid := false;
                 errors := [{| rule := "never"; message := "Never valid";
                               params := [] |}] |}.
Proof.
  split; [reflexivity|].
  exact (proj1 (@registered_rule_round_trip unit bare_runtime "never"
                  (constant_predicate (VBool false)) "Never valid" "age"
                  (VString "x") None (VBool false)
                  (new_machine bare_runtime tt) eq_refl)).
Defined.

Lemma creditCard_detects_a_wrong_digit_witness :
  rule_creditCard (VString "4539 1488 0343 6467") [] [] = Normal (VBool true)
  /\ rule_creditCard (VString "4539 1488 0343 6468") [] []
     = Normal (VBool false).
Proof.
  split; [reflexivity|].
  refine (@creditCard_detects_a_wrong_digit "4539 1488 0343 646" EmptyString
            "7" "8" [] [] [] [] eq_refl eq_refl _ eq_refl).
  discriminate.
Defined.

Lemma cpf_detects_a_wrong_check_digit_witness :
  rule_cpf (VString "529.982.247-25") [] [] = Normal (VBool true)
  /\ rule_cpf (VString "529.982.247-26") [] [] = Normal (VBool false).
Proof.
  split; [reflexivity|].
  refine (@cpf_detects_a_wrong_check_digit "529.982.247-2" EmptyString
            "5" "6" [] [] [] [] eq_refl eq_refl _ _ eq_refl).
  - discriminate.
  - apply Nat.leb_le. reflexivity.
Defined.

Lemma nitValido_counts_the_digits_witness :
  rule_nitValido (VString "900.123.456-7") [] [] = Normal (VBool true)
  /\ rule_nitValido (VString "900 123") [] [] = Normal (VBool false)
  /\ rule_nitValido (VString "9001234567") [] []
     = rule_nitValido (VString "900123456-7") [] [].
Proof.
  split; [reflexivity|]. split; [reflexivity|]. symmetry.
  refine (proj1 (proj2 nitValido_counts_the_digits) "900123456" "7" "-"%char
            [] [] eq_refl _).
  discriminate.
Defined.
